(** * Archy daemon: completion detection and output classification

    A shallow embedding of [src/src/main.rs] ([wait_for_command_completion]
    and the handlers that surface its result), [src/src/parser.rs]
    ([detect_format], [parse_intelligently] and the extractors) and the part
    of [src/src/output.rs] that builds the timeout envelope.

    Text is modelled as Rust's [str] sees it: a list of Unicode scalar values
    ([list Z]); byte strings (the stdout of a [Command]) are lists of [Z] in
    0..255.  Unicode tables that the Rust standard library and the [regex]
    crate carry ([char::to_lowercase], [char::is_alphabetic], the regex class
    [\d]), serde_json's parser and the iteration order of a [HashSet] are
    parameters of the development; everything else is written out. *)

From Stdlib Require Import ZArith List String Ascii Bool Lia Permutation.
Import ListNotations.
Open Scope Z_scope.
Set Warnings "-register-all".

(** ** Text *)

(** An ASCII string literal as a list of scalar values. *)
Definition s2l (s : string) : list Z :=
  map (fun a => Z.of_nat (nat_of_ascii a)) (list_ascii_of_string s).

Fixpoint list_eqb (a b : list Z) : bool :=
  match a, b with
  | [], [] => true
  | x :: a', y :: b' => (x =? y) && list_eqb a' b'
  | _, _ => false
  end.

Fixpoint starts_with (s p : list Z) : bool :=
  match p, s with
  | [], _ => true
  | c :: p', d :: s' => (c =? d) && starts_with s' p'
  | _ :: _, [] => false
  end.

(** [str::contains(&str)]: [p] occurs contiguously in [s]; the empty
    pattern occurs everywhere. *)
Fixpoint contains (s p : list Z) : bool :=
  match s with
  | [] => starts_with [] p
  | _ :: s' => starts_with s p || contains s' p
  end.

(** [str::contains(char)]. *)
Definition contains_char (s : list Z) (c : Z) : bool := existsb (Z.eqb c) s.

Definition ends_with (s p : list Z) : bool := starts_with (rev s) (rev p).

(** The Unicode [White_Space] property, used by [str::trim],
    [str::split_whitespace] and the regex classes [\s] / [\S]. *)
Definition is_ws (c : Z) : bool :=
  ((9 <=? c) && (c <=? 13)) || (c =? 32) || (c =? 133) || (c =? 160)
  || (c =? 5760) || ((8192 <=? c) && (c <=? 8202)) || (c =? 8232)
  || (c =? 8233) || (c =? 8239) || (c =? 8287) || (c =? 12288).

Fixpoint trim_start (s : list Z) : list Z :=
  match s with
  | c :: s' => if is_ws c then trim_start s' else s
  | [] => []
  end.

Definition trim_end (s : list Z) : list Z := rev (trim_start (rev s)).

(** [str::trim]. *)
Definition trim (s : list Z) : list Z := trim_end (trim_start s).

(** [str::split(c)]: always at least one piece. *)
Fixpoint split_on (c : Z) (s : list Z) : list (list Z) :=
  match s with
  | [] => [[]]
  | d :: s' =>
      if d =? c then [] :: split_on c s'
      else match split_on c s' with
           | p :: ps => (d :: p) :: ps
           | [] => [[d]]
           end
  end.

(** [str::lines]: split after each ['\n']; a line that ended in ['\n']
    loses a final ['\r']; a final empty piece is not a line. *)
Definition strip_cr (l : list Z) : list Z :=
  match rev l with
  | 13 :: r => rev r
  | _ => l
  end.

Fixpoint lines_of_pieces (ps : list (list Z)) : list (list Z) :=
  match ps with
  | [] => []
  | [p] => match p with [] => [] | _ => [p] end
  | p :: ps' => strip_cr p :: lines_of_pieces ps'
  end.

Definition lines (s : list Z) : list (list Z) := lines_of_pieces (split_on 10 s).

(** [str::split_whitespace]: maximal runs of non-white-space characters. *)
Fixpoint split_ws_aux (cur : list Z) (s : list Z) : list (list Z) :=
  match s with
  | [] => match cur with [] => [] | _ => [rev cur] end
  | c :: s' =>
      if is_ws c then
        match cur with
        | [] => split_ws_aux [] s'
        | _ => rev cur :: split_ws_aux [] s'
        end
      else split_ws_aux (c :: cur) s'
  end.

Definition split_whitespace (s : list Z) : list (list Z) := split_ws_aux [] s.

(** [str::trim_end_matches(c)]. *)
Definition trim_end_matches (s : list Z) (c : Z) : list Z :=
  rev ((fix drop l := match l with
                      | d :: l' => if d =? c then drop l' else l
                      | [] => []
                      end) (rev s)).

(** [<[T]>::join(sep)]. *)
Fixpoint join (sep : list Z) (xs : list (list Z)) : list Z :=
  match xs with
  | [] => []
  | [x] => x
  | x :: xs' => x ++ sep ++ join sep xs'
  end.

(** [str::replace(from, "")] style replacement of every non-overlapping
    occurrence, scanning left to right. *)
Fixpoint replace_all_aux (fuel : nat) (s p r : list Z) : list Z :=
  match fuel with
  | O => s
  | S f =>
      match s with
      | [] => []
      | c :: s' =>
          if starts_with s p then r ++ replace_all_aux f (skipn (List.length p) s) p r
          else c :: replace_all_aux f s' p r
      end
  end.

Definition replace_all (s p r : list Z) : list Z :=
  match p with
  | [] => s   (* not reached: the code only replaces ".service" *)
  | _ => replace_all_aux (S (List.length s)) s p r
  end.

(** Length in bytes of the UTF-8 encoding ([str::len]). *)
Definition utf8_width (c : Z) : Z :=
  if c <? 128 then 1 else if c <? 2048 then 2 else if c <? 65536 then 3 else 4.

Definition utf8_len (s : list Z) : Z := fold_right (fun c n => utf8_width c + n) 0 s.

(** [String::from_utf8]: strict decoding, [None] on any ill-formed
    sequence (Rust's [Utf8Error]). *)
Definition cont (b : Z) : bool := (128 <=? b) && (b <=? 191).
Definition inr_ (lo b hi : Z) : bool := (lo <=? b) && (b <=? hi).

Fixpoint from_utf8 (bs : list Z) : option (list Z) :=
  match bs with
  | [] => Some []
  | b0 :: r0 =>
      if b0 <? 128 then option_map (cons b0) (from_utf8 r0)
      else if inr_ 194 b0 223 then
        match r0 with
        | b1 :: r1 =>
            if cont b1
            then option_map (cons (Z.lor (Z.shiftl (Z.land b0 31) 6) (Z.land b1 63)))
                            (from_utf8 r1)
            else None
        | [] => None
        end
      else if inr_ 224 b0 239 then
        match r0 with
        | b1 :: b2 :: r2 =>
            let ok1 := if b0 =? 224 then inr_ 160 b1 191
                       else if b0 =? 237 then inr_ 128 b1 159
                       else cont b1 in
            if ok1 && cont b2
            then option_map
                   (cons (Z.lor (Z.shiftl (Z.land b0 15) 12)
                                (Z.lor (Z.shiftl (Z.land b1 63) 6) (Z.land b2 63))))
                   (from_utf8 r2)
            else None
        | _ => None
        end
      else if inr_ 240 b0 244 then
        match r0 with
        | b1 :: b2 :: b3 :: r3 =>
            let ok1 := if b0 =? 240 then inr_ 144 b1 191
                       else if b0 =? 244 then inr_ 128 b1 143
                       else cont b1 in
            if ok1 && cont b2 && cont b3
            then option_map
                   (cons (Z.lor (Z.shiftl (Z.land b0 7) 18)
                           (Z.lor (Z.shiftl (Z.land b1 63) 12)
                              (Z.lor (Z.shiftl (Z.land b2 63) 6) (Z.land b3 63)))))
                   (from_utf8 r3)
            else None
        | _ => None
        end
      else None
  end.

(** [<uN as FromStr>::from_str]: an optional ['+'], then at least one ASCII
    digit, value at most [max]. *)
Definition is_ascii_digit (c : Z) : bool := (48 <=? c) && (c <=? 57).

Definition parse_uint (max : Z) (s : list Z) : option Z :=
  let digits := match s with 43 :: r => r | _ => s end in
  match digits with
  | [] => None
  | _ =>
      if forallb is_ascii_digit digits then
        let v := fold_left (fun acc d => acc * 10 + (d - 48)) digits 0 in
        if v <=? max then Some v else None
      else None
  end.

Definition parse_u8 := parse_uint 255.
Definition parse_u64 := parse_uint (2 ^ 64 - 1).

(** Decimal rendering of an integer ([Display] for the integer types). *)
Fixpoint digits_aux (fuel : nat) (n : Z) (acc : list Z) : list Z :=
  match fuel with
  | O => acc
  | S f => let acc' := (48 + n mod 10) :: acc in
           if n <? 10 then acc' else digits_aux f (n / 10) acc'
  end.

Definition show_Z (n : Z) : list Z :=
  if n <? 0 then 45 :: digits_aux (S (Z.to_nat (Z.log2 (- n)))) (- n) []
  else digits_aux (S (Z.to_nat (Z.log2 n))) n [].

Definition show_nat (n : nat) : list Z := show_Z (Z.of_nat n).

(** Two's-complement wrap-around of an [i32] counter ([+= 1] in a release
    build) and of a [u64] accumulator. *)
Definition wrap_i32 (x : Z) : Z := ((x + 2 ^ 31) mod 2 ^ 32) - 2 ^ 31.
Definition wrap_u64 (x : Z) : Z := x mod 2 ^ 64.

(** Prefix of elements satisfying [p], and the rest ([take_while] /
    [skip_while]). *)
Fixpoint span (p : Z -> bool) (l : list Z) : list Z * list Z :=
  match l with
  | c :: l' => if p c then let (a, b) := span p l' in (c :: a, b) else ([], l)
  | [] => ([], [])
  end.

(** [str::find(&str)]: index of the first occurrence. *)
Fixpoint find_sub (s p : list Z) : option nat :=
  match s with
  | [] => if starts_with [] p then Some O else None
  | _ :: s' =>
      if starts_with s p then Some O else option_map S (find_sub s' p)
  end.

(** ** serde_json values *)

(** [serde_json::Number]: the three internal representations (a float by
    its IEEE-754 bit pattern). *)
Inductive Number := PosInt (n : Z) | NegInt (n : Z) | Float (bits : Z).

(** [serde_json::Value].  Objects list their entries; the [json!] literals
    below list them in key order, as serde_json's default [BTreeMap] keeps
    them. *)
Inductive Value :=
| JNull
| JBool (b : bool)
| JNumber (n : Number)
| JString (s : list Z)
| JArray (l : list Value)
| JObject (m : list (list Z * Value)).

(** [json!(n)] for an integer [n]: non-negative values are stored as
    [PosInt], negative ones as [NegInt]. *)
Definition num (z : Z) : Value := JNumber (if z <? 0 then NegInt z else PosInt z).
Definition numn (n : nat) : Value := num (Z.of_nat n).
Definition jstrs (l : list (list Z)) : Value := JArray (map JString l).

Fixpoint jlookup (k : list Z) (m : list (list Z * Value)) : option Value :=
  match m with
  | [] => None
  | (k', v) :: m' => if list_eqb k k' then Some v else jlookup k m'
  end.

Definition jget (v : Value) (k : list Z) : option Value :=
  match v with JObject m => jlookup k m | _ => None end.

(** ** parser.rs: records *)

Inductive Importance := Critical | High | Medium | Low | Info.

Record Finding := mkFinding {
  category : list Z;
  message : list Z;
  importance : Importance
}.

Record Metadata := mkMetadata {
  line_count : nat;
  byte_count : Z;
  duration_ms : option Z;
  format_detected : list Z
}.

Record ParsedOutput := mkParsedOutput {
  raw : list Z;
  structured : Value;
  findings : list Finding;
  summary : list Z;
  metadata : Metadata
}.

Section Parser.

(** [str::to_lowercase]: the Unicode lower-case mapping of the standard
    library. *)
Variable to_lowercase : list Z -> list Z.
(** [char::is_alphabetic]: the Unicode [Alphabetic] property. *)
Variable is_alphabetic : Z -> bool.
(** The regex class [\d] (Unicode [Nd]), the [regex] crate's default. *)
Variable is_digit_nd : Z -> bool.
(** [serde_json::from_str::<Value>]: [None] for a parse error. *)
Variable json_from_str : list Z -> option Value.
(** Iteration order of a [HashSet<String>] holding the given distinct
    elements (listed in insertion order); it depends on the set's random
    hasher state. *)
Variable hash_order : list (list Z) -> list (list Z).

(** [detect_format]. *)
Definition detect_format (output command : list Z) : list Z :=
  let lower_cmd := to_lowercase command in
  let lower_output := to_lowercase output in
  if contains lower_cmd (s2l "nmap") then s2l "nmap"
  else if contains lower_cmd (s2l "netstat") || contains lower_cmd (s2l "ss")
  then s2l "network_table"
  else if contains lower_cmd (s2l "ps") || contains lower_cmd (s2l "top")
  then s2l "process_table"
  else if contains lower_cmd (s2l "ls")
          && (contains lower_cmd (s2l "-l") || contains lower_cmd (s2l "--long"))
  then s2l "ls_long"
  else if contains lower_cmd (s2l "ip")
          && (contains lower_cmd (s2l "addr") || contains lower_cmd (s2l "ip a")
              || list_eqb lower_cmd (s2l "ip a"))
  then s2l "ip_addr"
  else if contains lower_cmd (s2l "systemctl") then s2l "systemctl"
  else if contains lower_cmd (s2l "df") then s2l "disk_usage"
  else if contains lower_cmd (s2l "lsblk") then s2l "block_devices"
  else if contains lower_cmd (s2l "journalctl") then s2l "journalctl"
  else if contains lower_output (s2l "starting nmap")
          || contains lower_output (s2l "host is up")
  then s2l "nmap"
  else if contains lower_output (s2l "tcp") && contains lower_output (s2l "established")
  then s2l "network_table"
  else if (3 <? Z.of_nat (List.length
             (filter (fun l => contains l (s2l "|") || contains l [9474])
                     (lines output))))%Z
  then s2l "table"
  else if starts_with output [123] || starts_with output [91] then s2l "json"
  else s2l "plain_text".

(** [parse_nmap]: the scan over the lines, then findings, record and
    summary. *)
Definition nmap_line (acc : Z * list (list Z) * list (list Z)) (line : list Z) :=
  let '(hosts_up, open_ports, services) := acc in
  let lower := to_lowercase line in
  let hosts_up := if contains lower (s2l "host is up") then wrap_i32 (hosts_up + 1)
                  else hosts_up in
  if contains line (s2l "/tcp") && contains lower (s2l "open") then
    let parts := split_whitespace line in
    match parts with
    | port_part :: _ =>
        (hosts_up, open_ports ++ [port_part],
         if (2 <? List.length parts)%nat then services ++ [nth 2 parts []] else services)
    | [] => (hosts_up, open_ports, services)
    end
  else (hosts_up, open_ports, services).

Definition nmap_scan (raw : list Z) := fold_left nmap_line (lines raw) (0, [], []).

Definition parse_nmap (raw : list Z) (metadata : Metadata) : ParsedOutput :=
  let '(hosts_up, open_ports, services) := nmap_scan raw in
  let findings :=
    (if 0 <? hosts_up then
       [mkFinding (s2l "Host Count")
          (s2l "Found " ++ show_Z hosts_up ++ s2l " active host(s) on network")
          (if 10 <? hosts_up then High else Medium)]
     else [])
    ++ (match open_ports with
        | [] => []
        | _ => [mkFinding (s2l "Open Ports")
                  (s2l "Detected " ++ show_nat (List.length open_ports)
                   ++ s2l " open port(s): " ++ join (s2l ", ") open_ports) High]
        end)
    ++ (match services with
        | [] => []
        | _ => [mkFinding (s2l "Services")
                  (s2l "Services detected: " ++ join (s2l ", ") services) Info]
        end) in
  let structured :=
    JObject [(s2l "hosts_up", num hosts_up); (s2l "open_ports", jstrs open_ports);
             (s2l "scan_type", JString (s2l "nmap")); (s2l "services", jstrs services)] in
  let summary :=
    if 0 <? hosts_up then
      s2l "Network scan complete - " ++ show_Z hosts_up ++ s2l " hosts active, "
      ++ show_nat (List.length open_ports) ++ s2l " open ports"
    else s2l "Network scan complete - no hosts detected" in
  mkParsedOutput raw structured findings summary metadata.

(** [parse_network_table]. *)
Definition net_line (acc : list Value * Z * Z) (line : list Z) :=
  let '(connections, established, listening) := acc in
  let lower := to_lowercase line in
  if contains lower (s2l "established") then
    let parts := split_whitespace line in
    (if (5 <=? List.length parts)%nat then
       connections ++
         [JObject [(s2l "local", JString (nth 3 parts []));
                   (s2l "protocol", JString (nth 0 parts []));
                   (s2l "remote", JString (nth 4 parts []));
                   (s2l "state", JString (s2l "ESTABLISHED"))]]
     else connections,
     wrap_i32 (established + 1), listening)
  else if contains lower (s2l "listen") then
    (connections, established, wrap_i32 (listening + 1))
  else (connections, established, listening).

Definition net_scan (raw : list Z) := fold_left net_line (lines raw) ([], 0, 0).

Definition parse_network_table (raw : list Z) (metadata : Metadata) : ParsedOutput :=
  let '(connections, established, listening) := net_scan raw in
  let findings :=
    (if 0 <? established then
       [mkFinding (s2l "Active Connections")
          (show_Z established ++ s2l " established connection(s)")
          (if 50 <? established then High else Info)]
     else [])
    ++ (if 0 <? listening then
          [mkFinding (s2l "Listening Ports")
             (show_Z listening ++ s2l " listening port(s)") Info]
        else []) in
  let structured :=
    JObject [(s2l "connections", JArray connections);
             (s2l "established_count", num established);
             (s2l "listening_count", num listening)] in
  let summary := show_Z established ++ s2l " established, " ++ show_Z listening
                 ++ s2l " listening" in
  mkParsedOutput raw structured findings summary metadata.

(** [parse_process_table]. *)
Definition parse_process_table (raw : list Z) (metadata : Metadata) : ParsedOutput :=
  let process_count :=
    List.length (filter (fun l => negb (list_eqb (trim l) [])
                                  && negb (contains (to_lowercase l) (s2l "pid")))
                        (lines raw)) in
  let findings :=
    if (0 <? process_count)%nat then
      [mkFinding (s2l "Process Count") (show_nat process_count ++ s2l " process(es) listed")
                 Info]
    else [] in
  let structured :=
    JObject [(s2l "process_count", numn process_count);
             (s2l "type", JString (s2l "process_list"))] in
  mkParsedOutput raw structured findings (show_nat process_count ++ s2l " processes")
                 metadata.

(** [parse_ls_long]. *)
Definition ls_line (acc : Z * Z * Z) (line : list Z) :=
  let '(files, directories, total_size) := acc in
  if starts_with line (s2l "d") then (files, wrap_i32 (directories + 1), total_size)
  else if starts_with line (s2l "-") then
    let parts := split_whitespace line in
    let total_size :=
      if (4 <? List.length parts)%nat then
        match parse_u64 (nth 4 parts []) with
        | Some size => wrap_u64 (total_size + size)
        | None => total_size
        end
      else total_size in
    (wrap_i32 (files + 1), directories, total_size)
  else (files, directories, total_size).

Definition parse_ls_long (raw : list Z) (metadata : Metadata) : ParsedOutput :=
  let '(files, directories, total_size) := fold_left ls_line (lines raw) (0, 0, 0) in
  let findings :=
    if (0 <? files) || (0 <? directories) then
      [mkFinding (s2l "Directory Contents")
         (show_Z files ++ s2l " file(s), " ++ show_Z directories ++ s2l " director(ies)")
         Info]
    else [] in
  let structured :=
    JObject [(s2l "directories", num directories); (s2l "files", num files);
             (s2l "total_size_bytes", num total_size)] in
  mkParsedOutput raw structured findings
    (show_Z files ++ s2l " files, " ++ show_Z directories ++ s2l " directories") metadata.

(** The regex [^\d+:\s+(\S+):], group 1.  Every repetition is forced to be
    maximal except [(\S+)], which is the longest prefix of the following
    non-blank run that is itself followed by [':']. *)
Fixpoint last_colon_prefix_rev (rw : list Z) : option (list Z) :=
  match rw with
  | [] => None
  | c :: rw' =>
      if (c =? 58) && negb (list_eqb rw' []) then Some (rev rw')
      else last_colon_prefix_rev rw'
  end.

Definition re_interface (line : list Z) : option (list Z) :=
  let (ds, r1) := span is_digit_nd line in
  match ds, r1 with
  | _ :: _, 58 :: r2 =>
      let (ws, r3) := span is_ws r2 in
      match ws with
      | [] => None
      | _ => let (w, _) := span (fun c => negb (is_ws c)) r3 in
             last_colon_prefix_rev (rev w)
      end
  | _, _ => None
  end.

(** The regex [inet\s+(\d+\.\d+\.\d+\.\d+/\d+)], group 1 of the leftmost
    match; each repetition is maximal. *)
Definition digits_then (sep : option Z) (s : list Z) : option (list Z * list Z) :=
  let (ds, r) := span is_digit_nd s in
  match ds, sep, r with
  | [], _, _ => None
  | _, None, _ => Some (ds, r)
  | _, Some c, d :: r' => if d =? c then Some (ds ++ [c], r') else None
  | _, Some _, [] => None
  end.

Definition ipv4_at (s : list Z) : option (list Z) :=
  if starts_with s (s2l "inet") then
    let (ws, r) := span is_ws (skipn 4 s) in
    match ws with
    | [] => None
    | _ =>
        match digits_then (Some 46) r with
        | Some (a, r) =>
          match digits_then (Some 46) r with
          | Some (b, r) =>
            match digits_then (Some 46) r with
            | Some (c, r) =>
              match digits_then (Some 47) r with
              | Some (d, r) =>
                match digits_then None r with
                | Some (e, _) => Some (a ++ b ++ c ++ d ++ e)
                | None => None
                end
              | None => None
              end
            | None => None
            end
          | None => None
          end
        | None => None
        end
    end
  else None.

Fixpoint re_ipv4 (s : list Z) : option (list Z) :=
  match s with
  | [] => None
  | _ :: s' => match ipv4_at s with Some c => Some c | None => re_ipv4 s' end
  end.

(** [parse_ip_addr]. *)
Definition ip_line (acc : list (list Z) * list (list Z)) (line : list Z) :=
  let '(interfaces, ipv4_addresses) := acc in
  (match re_interface line with Some i => interfaces ++ [i] | None => interfaces end,
   match re_ipv4 line with Some ip => ipv4_addresses ++ [ip] | None => ipv4_addresses end).

Definition parse_ip_addr (raw : list Z) (metadata : Metadata) : ParsedOutput :=
  let '(interfaces, ipv4_addresses) := fold_left ip_line (lines raw) ([], []) in
  let findings :=
    (match interfaces with
     | [] => []
     | _ => [mkFinding (s2l "Network Interfaces")
               (show_nat (List.length interfaces) ++ s2l " interface(s) detected: "
                ++ join (s2l ", ") interfaces) Info]
     end)
    ++ (match ipv4_addresses with
        | [] => []
        | _ => [mkFinding (s2l "IP Addresses")
                  (show_nat (List.length ipv4_addresses) ++ s2l " IPv4 address(es): "
                   ++ join (s2l ", ") ipv4_addresses) Info]
        end) in
  let structured :=
    JObject [(s2l "interfaces", jstrs interfaces);
             (s2l "ipv4_addresses", jstrs ipv4_addresses)] in
  mkParsedOutput raw structured findings
    (show_nat (List.length interfaces) ++ s2l " interfaces, "
     ++ show_nat (List.length ipv4_addresses) ++ s2l " IPs") metadata.

(** [parse_systemctl]. *)
Definition systemctl_line (acc : list (list Z) * list (list Z)) (line : list Z) :=
  let '(active_services, failed_services) := acc in
  let lower := to_lowercase line in
  match split_whitespace line with
  | first :: _ =>
      if ends_with first (s2l ".service") || contains first (s2l ".service") then
        let service_name := replace_all first (s2l ".service") [] in
        if contains lower (s2l "active") && contains lower (s2l "running")
        then (active_services ++ [service_name], failed_services)
        else if contains lower (s2l "failed")
        then (active_services, failed_services ++ [service_name])
        else (active_services, failed_services)
      else (active_services, failed_services)
  | [] => (active_services, failed_services)
  end.

Definition parse_systemctl (raw : list Z) (metadata : Metadata) : ParsedOutput :=
  let '(active_services, failed_services) := fold_left systemctl_line (lines raw) ([], []) in
  let na := List.length active_services in
  let nf := List.length failed_services in
  let findings :=
    (match failed_services with
     | [] => []
     | _ => [mkFinding (s2l "Failed Services")
               (show_nat nf ++ s2l " service(s) in failed state: "
                ++ join (s2l ", ") failed_services) High]
     end)
    ++ (match active_services with
        | [] => []
        | _ => [mkFinding (s2l "Active Services")
                  (show_nat na ++ s2l " service(s) active and running") Info]
        end) in
  let structured :=
    JObject [(s2l "active_count", numn na); (s2l "active_services", jstrs active_services);
             (s2l "failed_count", numn nf); (s2l "failed_services", jstrs failed_services)] in
  let summary :=
    match failed_services with
    | [] => show_nat na ++ s2l " active, " ++ show_nat nf ++ s2l " failed"
    | _ => show_nat nf ++ s2l " failed services: " ++ join (s2l ", ") failed_services
    end in
  mkParsedOutput raw structured findings summary metadata.

(** [parse_disk_usage]: what one line contributes (a filesystem entry and
    possibly a finding), then the scan. *)
Definition disk_finding (fsname : list Z) (usage : Z) : list Finding :=
  if 90 <? usage then
    [mkFinding (s2l "Disk Space Critical")
       (fsname ++ s2l " is " ++ show_Z usage ++ s2l "% full") Critical]
  else if 80 <? usage then
    [mkFinding (s2l "Disk Space Warning")
       (fsname ++ s2l " is " ++ show_Z usage ++ s2l "% full") High]
  else [].

Definition disk_line (line : list Z) : option (Value * list Finding) :=
  if contains_char line 37 then
    let parts := split_whitespace line in
    if (5 <=? List.length parts)%nat then
      match find (fun p => ends_with p [37]) parts with
      | Some usage_str =>
          match parse_u8 (trim_end_matches usage_str 37) with
          | Some usage =>
              Some (JObject [(s2l "available", JString (nth 3 parts []));
                             (s2l "filesystem", JString (nth 0 parts []));
                             (s2l "mount", JString (nth 5 parts []));
                             (s2l "size", JString (nth 1 parts []));
                             (s2l "usage_percent", num usage);
                             (s2l "used", JString (nth 2 parts []))],
                    disk_finding (nth 0 parts []) usage)
          | None => None
          end
      | None => None
      end
    else None
  else None.

Definition disk_step (acc : list Value * list Finding) (line : list Z) :=
  let '(filesystems, findings) := acc in
  match disk_line line with
  | Some (fs, fnd) => (filesystems ++ [fs], findings ++ fnd)
  | None => (filesystems, findings)
  end.

Definition parse_disk_usage (raw : list Z) (metadata : Metadata) : ParsedOutput :=
  let '(filesystems, findings) := fold_left disk_step (lines raw) ([], []) in
  mkParsedOutput raw (JObject [(s2l "filesystems", JArray filesystems)]) findings
    (show_nat (List.length filesystems) ++ s2l " filesystem(s) checked") metadata.

(** [parse_json]. *)
Definition parse_json (raw : list Z) (metadata : Metadata) : ParsedOutput :=
  let structured :=
    match json_from_str raw with
    | Some json => json
    | None => JObject [(s2l "raw", JString raw)]
    end in
  mkParsedOutput raw structured
    [mkFinding (s2l "Format") (s2l "JSON data detected and parsed") Info]
    (s2l "JSON data parsed successfully") metadata.

(** [parse_journalctl].  [failed_services] is the [HashSet], kept as its
    distinct elements in insertion order. *)
Definition journal_line (acc : list (list Z) * list (list Z) * list (list Z))
    (line : list Z) :=
  let '(errors, warnings, failed_services) := acc in
  let lower := to_lowercase line in
  if contains lower (s2l "error") || contains lower (s2l "failed")
     || contains lower (s2l "fail") then
    let failed_services :=
      if contains lower (s2l ".service") then
        let (pre, rest) := span (fun c => negb (is_alphabetic c)) line in
        match rest with
        | [] => failed_services
        | _ =>
            match find_sub rest (s2l ".service") with
            | Some e =>
                let service := firstn e rest in
                if existsb (list_eqb service) failed_services then failed_services
                else failed_services ++ [service]
            | None => failed_services
            end
        end
      else failed_services in
    (errors ++ [line], warnings, failed_services)
  else if contains lower (s2l "warning") || contains lower (s2l "warn") then
    (errors, warnings ++ [line], failed_services)
  else (errors, warnings, failed_services).

Definition parse_journalctl (raw : list Z) (metadata : Metadata) : ParsedOutput :=
  let '(errors, warnings, failed_set) := fold_left journal_line (lines raw) ([], [], []) in
  let failed_services := hash_order failed_set in
  let ne := List.length errors in
  let nw := List.length warnings in
  let findings :=
    (match errors with
     | [] => []
     | _ => [mkFinding (s2l "Errors") (show_nat ne ++ s2l " error(s) found in logs") High]
     end)
    ++ (match warnings with
        | [] => []
        | _ => [mkFinding (s2l "Warnings") (show_nat nw ++ s2l " warning(s) found in logs")
                  Medium]
        end)
    ++ (match failed_set with
        | [] => []
        | _ => [mkFinding (s2l "Failed Services")
                  (s2l "Services with issues: " ++ join (s2l ", ") failed_services) High]
        end) in
  let structured :=
    JObject [(s2l "error_count", numn ne); (s2l "errors", jstrs (firstn 10 errors));
             (s2l "failed_services", jstrs failed_services);
             (s2l "warning_count", numn nw); (s2l "warnings", jstrs (firstn 10 warnings))] in
  let summary :=
    match errors, warnings with
    | [], [] => s2l "No errors or warnings found"
    | _, _ => show_nat ne ++ s2l " error(s), " ++ show_nat nw ++ s2l " warning(s) in logs"
    end in
  mkParsedOutput raw structured findings summary metadata.

(** [parse_generic]. *)
Definition parse_generic (raw : list Z) (metadata : Metadata) : ParsedOutput :=
  mkParsedOutput raw
    (JObject [(s2l "line_count", numn (line_count metadata));
              (s2l "type", JString (s2l "plain_text"))])
    [] (s2l "Output captured (" ++ show_nat (line_count metadata) ++ s2l " lines)")
    metadata.

(** The [match format.as_str()] of [parse_intelligently]. *)
Definition extractor_for (format : list Z) : list Z -> Metadata -> ParsedOutput :=
  if list_eqb format (s2l "nmap") then parse_nmap
  else if list_eqb format (s2l "network_table") then parse_network_table
  else if list_eqb format (s2l "process_table") then parse_process_table
  else if list_eqb format (s2l "ls_long") then parse_ls_long
  else if list_eqb format (s2l "ip_addr") then parse_ip_addr
  else if list_eqb format (s2l "systemctl") then parse_systemctl
  else if list_eqb format (s2l "disk_usage") then parse_disk_usage
  else if list_eqb format (s2l "journalctl") then parse_journalctl
  else if list_eqb format (s2l "json") then parse_json
  else parse_generic.

(** [parse_intelligently]. *)
Definition parse_intelligently (raw command : list Z) : ParsedOutput :=
  let format := detect_format raw command in
  let metadata := mkMetadata (List.length (lines raw)) (utf8_len raw) None format in
  extractor_for format raw metadata.

End Parser.

(** ** main.rs: [wait_for_command_completion] *)

Fixpoint last_opt {A} (l : list A) : option A :=
  match l with
  | [] => None
  | [x] => Some x
  | _ :: l' => last_opt l'
  end.

Definition unwrap_or {A} (d : A) (o : option A) : A :=
  match o with Some x => x | None => d end.

(** [std::process::Output] of [tmux capture-pane]. *)
Record CmdOutput := mkCmdOutput {
  status_success : bool;
  stdout : list Z
}.

(** The loop variables [last_output] and [stable_count]. *)
Record WaitState := mkWaitState {
  last_output : list Z;
  stable_count : nat
}.

Definition required_stable_checks : nat := 3.

(** Result of one loop iteration: go on with the new loop variables, or
    [return] the success response carrying [current_output]. *)
Inductive Poll := Continue (st : WaitState) | Done (current_output : list Z).

(** The single-line checks of the loop body.  The glyphs are [$] (36),
    [#] (35), U+276F, [>] (62), U+276E and U+26A1. *)
Definition has_prompt (last_line : list Z) : bool :=
  contains_char last_line 36 || contains_char last_line 35
  || contains_char last_line 10095 || contains_char last_line 62
  || contains_char last_line 10094 || contains_char last_line 9889.

Definition command_not_echoed (last_line command : list Z) : bool :=
  negb (contains last_line command) || list_eqb command [].

(** [current_output.trim().split('\n').collect::<Vec<_>>().last()]. *)
Definition last_line_of (current_output : list Z) : option (list Z) :=
  last_opt (split_on 10 (trim current_output)).

(** [if current_output == last_output { stable_count += 1 } else
    { stable_count = 0; last_output = current_output.clone() }]. *)
Definition update_stability (current_output : list Z) (st : WaitState) : WaitState :=
  if list_eqb current_output (last_output st)
  then mkWaitState (last_output st) (S (stable_count st))
  else mkWaitState current_output 0.

Section Wait.

Variable to_lowercase : list Z -> list Z.

Definition waiting_for_password (last_line : list Z) : bool :=
  contains (to_lowercase last_line) (s2l "password for")
  || contains (to_lowercase last_line) (s2l "[sudo]").

(** The body of the loop after a capture decoded to [current_output]. *)
Definition observe (command current_output : list Z) (st : WaitState) : Poll :=
  let st' := update_stability current_output st in
  match last_line_of current_output with
  | Some last_line =>
      if negb (waiting_for_password last_line) && has_prompt last_line
         && command_not_echoed last_line command
         && (required_stable_checks <=? stable_count st')%nat
      then Done current_output
      else Continue st'
  | None => Continue st'
  end.

(** One iteration: [capture] is the result of [Command::output()] ([None]
    when the process could not be run). *)
Definition poll_step (command : list Z) (capture : option CmdOutput) (st : WaitState)
    : Poll :=
  match capture with
  | Some out =>
      if status_success out then
        match from_utf8 (stdout out) with
        | Some current_output => observe command current_output st
        | None => Continue st
        end
      else Continue st
  | None => Continue st
  end.

(** The two ways the loop ends. *)
Inductive Outcome := Stable (output : list Z) | TimedOut (partial : list Z).

(** The [while] loop.  [elapsed i] is [start_time.elapsed()] (in ns) at
    the [i]-th evaluation of the loop condition, [capture i] the result of
    the [i]-th [capture-pane].  The loop has no bound of its own; [fuel]
    only makes the recursion structural, and [None] means it ran out. *)
Fixpoint wait_loop (command : list Z) (max_duration : Z) (elapsed : nat -> Z)
    (capture : nat -> option CmdOutput) (fuel i : nat) (st : WaitState)
    : option Outcome :=
  match fuel with
  | O => None
  | S f =>
      if elapsed i <? max_duration then
        match poll_step command (capture i) st with
        | Done out => Some (Stable out)
        | Continue st' => wait_loop command max_duration elapsed capture f (S i) st'
        end
      else Some (TimedOut (last_output st))
  end.

End Wait.

(** The request fields read by [wait_for_command_completion]: the results
    of [as_str] / [as_u64] ([None] when absent or of another type). *)
Record WaitRequest := mkWaitRequest {
  req_session : option (list Z);
  req_max_wait : option Z;
  req_interval_ms : option Z;
  req_command : option (list Z)
}.

Definition max_wait_seconds (data : WaitRequest) : Z :=
  Z.min (unwrap_or 600 (req_max_wait data)) 3600.

Definition check_interval_ms (data : WaitRequest) : Z :=
  Z.max (unwrap_or 500 (req_interval_ms data)) 100.

(** [Duration::from_secs] and [Duration::from_millis], in nanoseconds. *)
Definition max_duration (data : WaitRequest) : Z := max_wait_seconds data * 10 ^ 9.
Definition check_interval (data : WaitRequest) : Z := check_interval_ms data * 10 ^ 6.

(** main.rs [Response]. *)
Record Response := mkResponse {
  success : bool;
  output : option (list Z);
  error : option (list Z);
  exists_ : option bool
}.

Definition to_response (o : Outcome) : Response :=
  match o with
  | Stable out => mkResponse true (Some out) None (Some true)
  | TimedOut last => mkResponse false (Some last)
                       (Some (s2l "Command timeout - may still be running")) (Some false)
  end.

(** Every iteration sleeps [check_interval] first, so the condition is
    false by iteration [max_duration / check_interval + 1]; this many
    iterations of fuel are always enough (see [wait_fuel_spec]). *)
Definition wait_fuel (data : WaitRequest) : nat :=
  S (S (Z.to_nat (max_duration data / check_interval data))).

Definition wait_for_command_completion (to_lowercase : list Z -> list Z)
    (data : WaitRequest) (elapsed : nat -> Z) (capture : nat -> option CmdOutput)
    : option Response :=
  let command := unwrap_or [] (req_command data) in
  option_map to_response
    (wait_loop to_lowercase command (max_duration data) elapsed capture
               (wait_fuel data) 0 (mkWaitState [] 0)).

(** ** output.rs: the response envelope *)

Record DisplayOutput := mkDisplayOutput {
  d_success : bool;
  d_command : list Z;
  d_status : list Z;
  d_exit_code : Z;
  d_structured : Value;
  d_findings : list Finding;
  d_summary : list Z;
  d_display : list Z;
  d_display_plain : list Z;
  d_metadata : Metadata;
  d_parsed : option Value;
  d_raw_output : list Z
}.

Section Envelope.

(** formatter.rs [format_error] and [strip_colors] (rendering only). *)
Variable format_error : list Z -> list Z -> list Z.
Variable strip_colors : list Z -> list Z.

(** [DisplayOutput::from_error]. *)
Definition from_error (command err : list Z) : DisplayOutput :=
  let display := format_error command err in
  mkDisplayOutput false command (s2l "error") (-1)
    (JObject [(s2l "error", JString err)]) [] (s2l "Error: " ++ err)
    display (strip_colors display) (mkMetadata 0 0 None (s2l "error")) None err.

(** [DisplayOutput::from_timeout]. *)
Definition from_timeout (command partial_output : list Z) : DisplayOutput :=
  let display := format_error command (s2l "Command timeout - may still be running") in
  mkDisplayOutput false command (s2l "timeout") (-1)
    (JObject [(s2l "partial_output", JString partial_output);
              (s2l "timeout", JBool true)])
    [] (s2l "Command timeout") display (strip_colors display)
    (mkMetadata (List.length (lines partial_output)) (utf8_len partial_output) None
                (s2l "timeout"))
    None partial_output.

(** The tail shared by [handle_execute_and_wait] and
    [handle_execute_analyzed]: turning the wait result into the envelope.
    [from_command_output] ([DisplayOutput::from_command_output]) is the
    success path and is taken as given. *)
Variable from_command_output : list Z -> list Z -> Z -> DisplayOutput.

Definition surface_wait_result (command : list Z) (wait_result : Response)
    : DisplayOutput :=
  if success wait_result then
    match output wait_result with
    | Some raw_output => from_command_output command raw_output 0
    | None => from_error command (s2l "No output captured")
    end
  else from_timeout command (unwrap_or [] (output wait_result)).

End Envelope.

(** ** Vocabulary of the statements *)

(** ASCII case folding; Rust's [to_lowercase] maps every ASCII character
    this way. *)
Definition ascii_lower (c : Z) : Z := if (65 <=? c) && (c <=? 90) then c + 32 else c.
Definition is_ascii (c : Z) : bool := (0 <=? c) && (c <? 128).
Definition lower_ascii (s : list Z) : list Z := map ascii_lower s.

(** [p] occurs in [s] up to ASCII case. *)
Definition ci_contains (s p : list Z) : Prop :=
  exists a q b, s = a ++ q ++ b /\ map ascii_lower q = p.

(** The last line of a text that is not empty, read literally. *)
Definition last_nonempty_line (text : list Z) : option (list Z) :=
  last_opt (filter (fun l => negb (list_eqb l [])) (split_on 10 text)).

(** The two tiers of the classifier as ordered rule lists, and
    first-match evaluation with a fallback. *)
Definition command_tier (to_lowercase : list Z -> list Z) (command : list Z)
    : list (bool * list Z) :=
  let c := to_lowercase command in
  [(contains c (s2l "nmap"), s2l "nmap");
   (contains c (s2l "netstat") || contains c (s2l "ss"), s2l "network_table");
   (contains c (s2l "ps") || contains c (s2l "top"), s2l "process_table");
   (contains c (s2l "ls") && (contains c (s2l "-l") || contains c (s2l "--long")),
    s2l "ls_long");
   (contains c (s2l "ip") && (contains c (s2l "addr") || contains c (s2l "ip a")
                              || list_eqb c (s2l "ip a")), s2l "ip_addr");
   (contains c (s2l "systemctl"), s2l "systemctl");
   (contains c (s2l "df"), s2l "disk_usage");
   (contains c (s2l "lsblk"), s2l "block_devices");
   (contains c (s2l "journalctl"), s2l "journalctl")].

Definition content_tier (to_lowercase : list Z -> list Z) (output : list Z)
    : list (bool * list Z) :=
  let o := to_lowercase output in
  [(contains o (s2l "starting nmap") || contains o (s2l "host is up"), s2l "nmap");
   (contains o (s2l "tcp") && contains o (s2l "established"), s2l "network_table");
   ((3 <? Z.of_nat (List.length
            (filter (fun l => contains l (s2l "|") || contains l [9474]) (lines output))))%Z,
    s2l "table");
   (starts_with output [123] || starts_with output [91], s2l "json")].

Fixpoint first_match (rules : list (bool * list Z)) (fallback : list Z) : list Z :=
  match rules with
  | [] => fallback
  | (b, f) :: rules' => if b then f else first_match rules' fallback
  end.

Definition format_names : list (list Z) :=
  map s2l ["nmap"; "network_table"; "process_table"; "ls_long"; "ip_addr"; "systemctl";
           "disk_usage"; "block_devices"; "journalctl"; "table"; "json"; "plain_text"]%string.

(** The loop variables after [n] iterations, or the value returned. *)
Fixpoint polls (to_lowercase : list Z -> list Z) (command : list Z)
    (capture : nat -> option CmdOutput) (n : nat) : Poll :=
  match n with
  | O => Continue (mkWaitState [] 0)
  | S k =>
      match polls to_lowercase command capture k with
      | Done out => Done out
      | Continue st => poll_step to_lowercase command (capture k) st
      end
  end.

(** A capture attempt that failed: [tmux] could not be run, exited with a
    failure status, or printed bytes that are not UTF-8. *)
Definition capture_fails (cap : option CmdOutput) : Prop :=
  cap = None \/ (exists bs, cap = Some (mkCmdOutput false bs))
  \/ (exists bs, cap = Some (mkCmdOutput true bs) /\ from_utf8 bs = None).

(** Rust's [str::to_lowercase] leaves every ASCII character as its ASCII
    lower-case form, whatever surrounds it. *)
Definition lowercase_keeps_ascii (to_lowercase : list Z -> list Z) : Prop :=
  forall a q b, forallb is_ascii q = true ->
  exists a' b', to_lowercase (a ++ q ++ b) = a' ++ lower_ascii q ++ b'.

(** Rust's [str::to_lowercase] on an all-ASCII text is its ASCII
    lower-case form. *)
Definition lowercase_ascii_text (to_lowercase : list Z -> list Z) : Prop :=
  forall q, forallb is_ascii q = true -> to_lowercase q = lower_ascii q.

(** The capture of the end-to-end [df -h] scenario. *)
Definition df_capture : list Z := s2l "user@host:~$ df -h
Filesystem      Size  Used Avail Use% Mounted on
/dev/sda1 100G 96G 2G 96% /
user@host:~$ ".

(** ** formatter.rs *)
(** The ANSI wrappers [format!("\x1b[NNm{}\x1b[0m", s)]. *)
Definition ansi_reset : list Z := [27; 91; 48; 109].

Definition color_red (s : list Z) : list Z := [27] ++ s2l "[31m" ++ s ++ ansi_reset.

Definition color_green (s : list Z) : list Z := [27] ++ s2l "[32m" ++ s ++ ansi_reset.

Definition color_yellow (s : list Z) : list Z := [27] ++ s2l "[33m" ++ s ++ ansi_reset.

Definition color_blue (s : list Z) : list Z := [27] ++ s2l "[34m" ++ s ++ ansi_reset.

Definition color_magenta (s : list Z) : list Z := [27] ++ s2l "[35m" ++ s ++ ansi_reset.

Definition color_cyan (s : list Z) : list Z := [27] ++ s2l "[36m" ++ s ++ ansi_reset.

Definition color_bold (s : list Z) : list Z := [27] ++ s2l "[1m" ++ s ++ ansi_reset.

Definition color_dim (s : list Z) : list Z := [27] ++ s2l "[2m" ++ s ++ ansi_reset.

(** [strip_colors]: [Regex::new(r"\x1b\[[0-9;]*m").replace_all(s, "")].
    The regex has one way to match at a position (ESC, ['['], the maximal
    run of digits and [';'], then ['m']), and no match is empty, so the
    leftmost-first scan is a left-to-right automaton.  [pending] holds the
    characters read since an ESC that may still start a match; when the
    match fails they are emitted as they are and the scan resumes at the
    character that broke it (the characters in [pending] after the ESC
    cannot start a match). *)
Definition is_code_char (c : Z) : bool := is_ascii_digit c || (c =? 59).

Definition strip_step (pending : option (list Z)) (c : Z) : list Z * option (list Z) :=
  let fail buf := if c =? 27 then (buf, Some [27]) else (buf ++ [c], None) in
  match pending with
  | None => if c =? 27 then ([], Some [27]) else ([c], None)
  | Some buf =>
      if list_eqb buf [27] then (if c =? 91 then ([], Some [27; 91]) else fail buf)
      else if is_code_char c then ([], Some (buf ++ [c]))
      else if c =? 109 then ([], None)
      else fail buf
  end.

Fixpoint strip_go (pending : option (list Z)) (s : list Z) : list Z :=
  match s with
  | [] => match pending with Some buf => buf | None => [] end
  | c :: s' => let (out, p) := strip_step pending c in out ++ strip_go p s'
  end.

Definition strip_colors (s : list Z) : list Z := strip_go None s.

(** [format_error]; the glyph is U+2717. *)
Definition format_error (command err : list Z) : list Z :=
  color_red ([10007] ++ s2l " Command failed: " ++ command) ++ [10]
  ++ color_red (s2l "  Error: " ++ err) ++ [10].

(** [pad_string]: [s.len()] counts bytes. *)
Definition pad_string (s : list Z) (width : Z) : list Z :=
  if width <=? utf8_len s then s
  else s ++ repeat 32 (Z.to_nat (width - utf8_len s)).

(** [&s[..n]]: the characters that make up the first [n] bytes; [None]
    is the panic when byte [n] is not on a character boundary. *)
Fixpoint byte_prefix (n : Z) (s : list Z) : option (list Z) :=
  if n =? 0 then Some []
  else match s with
       | [] => None
       | c :: s' =>
           if utf8_width c <=? n then option_map (cons c) (byte_prefix (n - utf8_width c) s')
           else None
       end.

(** [truncate_string]; [None] is the panic of the slice. *)
Definition truncate_string (s : list Z) (max_len : Z) : option (list Z) :=
  if utf8_len s <=? max_len then Some s
  else if max_len <=? 3 then Some (s2l "...")
  else option_map (fun p => p ++ s2l "...") (byte_prefix (max_len - 3) s).

(** ** output.rs: [DisplayOutput::simple_success] *)
(** The check mark in the source file is stored mis-encoded: the three
    characters U+00E2 U+0153 U+201C. *)
Definition simple_success (message : list Z) : DisplayOutput :=
  let display := color_green ([226; 339; 8220] ++ s2l " " ++ message) ++ [10] in
  mkDisplayOutput true [] (s2l "success") 0
    (JObject [(s2l "message", JString message)]) [] message display
    (strip_colors display) (mkMetadata 1 (utf8_len message) None (s2l "simple"))
    None message.

Definition flush (pending : option (list Z)) : list Z :=
  match pending with Some buf => buf | None => [] end.

Definition code_chars (ds : list Z) : Prop := forallb is_code_char ds = true.

(** Running the automaton over a prefix. *)
Fixpoint strip_run (p : option (list Z)) (s : list Z) : list Z * option (list Z) :=
  match s with
  | [] => ([], p)
  | c :: s' => let (o, q) := strip_step p c in
               let (o', r) := strip_run q s' in (o ++ o', r)
  end.

Definition ascii_text (s : list Z) : Prop := forallb is_ascii s = true.

(** [Result<T, E>]. *)
Inductive result (A E : Type) := Ok (a : A) | Err (e : E).

Arguments Ok {A E} a.

Arguments Err {A E} e.

(** ** helpers.rs: [security] *)
(** [escape_pgrep_pattern]: fourteen [str::replace(char, "\\c")] calls in
    this order, backslash first. *)
Definition pgrep_specials : list Z := [92; 46; 42; 43; 63; 91; 93; 40; 41; 123; 125; 124; 94; 36].

Definition escape_pgrep_pattern (s : list Z) : list Z :=
  fold_left (fun acc c => replace_all acc [c] [92; c]) pgrep_specials s.

(** [validate_command]; [Ok tt] is [Ok(())]. *)
Definition dangerous_patterns : list (list Z) :=
  map s2l ["rm -rf /"; "rm -rf /*"; "> /dev/sda"; "dd if=/dev/zero of=/dev/sda"; "mkfs.";
           ":(){ :|:& };:"]%string.

Definition validate_command (to_lowercase : list Z -> list Z) (command : list Z)
    : result unit (list Z) :=
  if contains_char command 0 then Err (s2l "Invalid command: contains null byte")
  else if 8192 <? utf8_len command then Err (s2l "Command too long (max 8192 characters)")
  else
    let command_lower := to_lowercase command in
    match find (fun pattern => contains command_lower pattern) dangerous_patterns with
    | Some pattern => Err (s2l "Blocked dangerous command pattern: " ++ pattern)
    | None => Ok tt
    end.

Definition escape_char (d : Z) : list Z := if existsb (Z.eqb d) pgrep_specials then [92; d] else [d].

Definition esc (done : list Z) (d : Z) : list Z :=
  if existsb (Z.eqb d) done then [92; d] else [d].

(** ** serde_json accessors *)
Definition as_str (v : Value) : option (list Z) :=
  match v with JString s => Some s | _ => None end.

Definition as_u64 (v : Value) : option Z :=
  match v with JNumber (PosInt n) => Some n | _ => None end.

Definition as_i64 (v : Value) : option Z :=
  match v with
  | JNumber (PosInt n) => if n <=? 2 ^ 63 - 1 then Some n else None
  | JNumber (NegInt n) => Some n
  | _ => None
  end.

(** [data.get(key).and_then(f)]. *)
Definition get_as {A} (f : Value -> option A) (data : Value) (key : list Z) : option A :=
  match jget data key with Some v => f v | None => None end.

(** ** helpers.rs: [response] and [params] *)
Definition response_success (output : list Z) : Response :=
  mkResponse true (Some output) None None.

Definition response_error (message : list Z) : Response :=
  mkResponse false None (Some message) None.

Definition response_exists (exists_b : bool) : Response :=
  mkResponse exists_b None None (Some exists_b).

Definition extract_string (data : Value) (key : list Z) : result (list Z) (list Z) :=
  match get_as as_str data key with
  | Some s => Ok s
  | None => Err (s2l "Missing required parameter: " ++ key)
  end.

(** ** config.rs *)
Record Config := mkConfig {
  socket_path : list Z;
  default_session : list Z;
  max_buffer_size : Z;
  default_capture_lines : Z;
  terminal_emulator : option (list Z);
  cfg_max_wait_seconds : Z;
  poll_interval_ms : Z
}.

(** [<i64 as FromStr>::from_str]. *)
Definition parse_i64 (s : list Z) : option Z :=
  match s with
  | 45 :: r =>
      match r with
      | [] => None
      | _ =>
          if forallb is_ascii_digit r then
            let v := - fold_left (fun acc d => acc * 10 + (d - 48)) r 0 in
            if - 2 ^ 63 <=? v then Some v else None
          else None
      end
  | _ => parse_uint (2 ^ 63 - 1) s
  end.

(** [Config::from_env]; [env k] is [env::var(k).ok()].  [usize] is 64 bits
    wide. *)
Definition from_env (env : list Z -> option (list Z)) : Config :=
  let num_var {A} (parse : list Z -> option A) (k : string) (d : A) :=
    unwrap_or d (match env (s2l k) with Some s => parse s | None => None end) in
  mkConfig
    (unwrap_or (s2l "/tmp/archy.sock") (env (s2l "ARCHY_SOCKET")))
    (unwrap_or (s2l "archy_session") (env (s2l "ARCHY_TMUX_SESSION")))
    (num_var parse_u64 "ARCHY_BUFFER_SIZE"%string 8192)
    (num_var parse_i64 "ARCHY_CAPTURE_LINES"%string 100)
    (env (s2l "ARCHY_TERMINAL"))
    (num_var parse_u64 "ARCHY_MAX_WAIT"%string 600)
    (num_var parse_u64 "ARCHY_POLL_INTERVAL"%string 500).

(** [impl Default for Config]. *)
Definition config_default : Config :=
  mkConfig (s2l "/tmp/archy.sock") (s2l "archy_session") 8192 100 None 600 500.

Definition get_session (config : Config) (data : Value) : list Z :=
  unwrap_or (default_session config) (get_as as_str data (s2l "session")).

Definition get_lines (config : Config) (data : Value) : Z :=
  unwrap_or (default_capture_lines config) (get_as as_i64 data (s2l "lines")).

(** ** main.rs: commands sent to tmux *)
(** The tmux invocations a handler makes, in order. *)
Inductive TmuxCall :=
| HasSession (session : list Z)
| NewSession (session : list Z)
| SendKeys (session command : list Z).

Section Handlers.

Variable to_lowercase : list Z -> list Z.

(** [tmux::has_session], [tmux::new_session] and [tmux::send_keys] as the
    tmux server answers them. *)
Variable has_session : list Z -> bool.

Variable new_session : list Z -> result unit (list Z).

Variable send_keys : list Z -> list Z -> result unit (list Z).

(** Spawning [tmux send-keys] with [Command::output()]: [None] when the
    process ran, [Some msg] with [e.to_string()] when it could not be
    spawned. *)
Variable spawn_error : list Z -> list Z -> option (list Z).

(** The [if !tmux::has_session(session) { tmux::new_session(session) }]
    preamble shared by the handlers. *)
Definition ensure_session (session : list Z) : list TmuxCall * result unit (list Z) :=
  if has_session session then ([HasSession session], Ok tt)
  else ([HasSession session; NewSession session], new_session session).

(** [execute_command]. *)
Definition execute_command (data : Value) (config : Config) : list TmuxCall * Response :=
  match extract_string data (s2l "command") with
  | Err e => ([], response_error e)
  | Ok command =>
      if list_eqb (trim command) [] then
        ([], response_error (s2l "Command cannot be empty"))
      else
        match validate_command to_lowercase command with
        | Err e => ([], response_error e)
        | Ok _ =>
            let session := get_session config data in
            let (calls, created) := ensure_session session in
            match created with
            | Err e =>
                (calls, response_error (s2l "Failed to create tmux session: " ++ e))
            | Ok _ =>
                (calls ++ [SendKeys session command],
                 match send_keys session command with
                 | Ok _ => response_success ([10003] ++ s2l " Executed: " ++ command)
                 | Err e => response_error e
                 end)
            end
        end
  end.

(** What [handle_execute_and_wait] does before waiting: either the
    envelope it sends at once, or the request it hands to
    [wait_for_command_completion]. *)
Inductive Prelude := Early (o : DisplayOutput) | WaitOn (req : WaitRequest).

Definition execute_and_wait_prelude (data : Value) : list TmuxCall * Prelude :=
  match get_as as_str data (s2l "command") with
  | None => ([], Early (from_error format_error strip_colors []
                          (s2l "Missing command parameter")))
  | Some command =>
      let session := unwrap_or (s2l "archy_session") (get_as as_str data (s2l "session")) in
      let (calls, created) := ensure_session session in
      match created with
      | Err e =>
          (calls, Early (from_error format_error strip_colors command
                           (s2l "Failed to create tmux session: " ++ e)))
      | Ok _ =>
          let calls := calls ++ [SendKeys session command] in
          match spawn_error session command with
          | Some e => (calls, Early (from_error format_error strip_colors command e))
          | None =>
              (calls,
               WaitOn (mkWaitRequest (Some session)
                         (Some (unwrap_or 300 (get_as as_u64 data (s2l "max_wait"))))
                         (Some (unwrap_or 500 (get_as as_u64 data (s2l "interval_ms"))))
                         (Some command)))
          end
      end
  end.

End Handlers.

(** ** main.rs: [extract_current_directory] *)
(** [str::rfind(char)]: index of the last occurrence.  The characters
    searched for are ASCII, so byte and character indices slice alike. *)
Fixpoint rfind_char (s : list Z) (c : Z) : option nat :=
  match s with
  | [] => None
  | d :: s' =>
      match rfind_char s' c with
      | Some i => Some (S i)
      | None => if d =? c then Some O else None
      end
  end.

Definition or_else {A} (o : option A) (f : unit -> option A) : option A :=
  match o with Some x => Some x | None => f tt end.

(** Pattern 1: [user@host:path$]. *)
Definition prompt_pattern1 (line : list Z) : option (list Z) :=
  match rfind_char line 58 with
  | Some pos =>
      let after_colon := skipn (S pos) line in
      match or_else (find_sub after_colon [36]) (fun _ => find_sub after_colon [35]) with
      | Some dollar_pos =>
          let path := trim (firstn dollar_pos after_colon) in
          if list_eqb path [] then None else Some path
      | None => None
      end
  | None => None
  end.

(** Pattern 2: [[user@host path]$]. *)
Definition prompt_pattern2 (line : list Z) : option (list Z) :=
  if contains_char line 91 && contains_char line 93 then
    match rfind_char line 91, rfind_char line 93 with
    | Some start_bracket, Some end_bracket =>
        if (start_bracket <? end_bracket)%nat then
          let inside := firstn (end_bracket - S start_bracket) (skipn (S start_bracket) line) in
          match rfind_char inside 32 with
          | Some space_pos =>
              let path := trim (skipn (S space_pos) inside) in
              if list_eqb path [] then None else Some path
          | None => None
          end
        else None
    | _, _ => None
    end
  else None.

(** Pattern 3: a path starting with ['/'] or ['~'] before [$] or [#]. *)
Definition prompt_pattern3 (line : list Z) : option (list Z) :=
  match or_else (rfind_char line 36) (fun _ => rfind_char line 35) with
  | Some dollar_pos =>
      let before_dollar := firstn dollar_pos line in
      match rfind_char before_dollar 32 with
      | Some space_pos =>
          let path := trim (skipn (S space_pos) before_dollar) in
          if negb (list_eqb path []) && (starts_with path [47] || starts_with path [126])
          then Some path else None
      | None => None
      end
  | None => None
  end.

Definition prompt_path (line : list Z) : option (list Z) :=
  or_else (prompt_pattern1 line)
    (fun _ => or_else (prompt_pattern2 line) (fun _ => prompt_pattern3 line)).

Definition extract_current_directory (data : Value) : Response :=
  match get_as as_str data (s2l "terminal_output") with
  | None => mkResponse false None (Some (s2l "Missing terminal_output parameter")) None
  | Some terminal_output =>
      let lines := split_on 10 (trim terminal_output) in
      match lines with
      | [] => mkResponse false None (Some (s2l "Empty terminal output")) None
      | _ =>
          let start := if (5 <? List.length lines)%nat then (List.length lines - 5)%nat
                       else O in
          match fold_right (fun line acc => or_else (prompt_path line) (fun _ => acc))
                  None (rev (skipn start lines)) with
          | Some path => mkResponse true (Some path) None None
          | None => mkResponse false None
                      (Some (s2l "Could not extract directory from prompt")) None
          end
      end
  end.

(** ** main.rs: reading a request in [handle_client] *)
(** The result of one [stream.read(&mut temp_buf)] with an 8192-byte
    [temp_buf]: [n > 0] bytes, [Ok(0)], a [TimedOut] error or another
    error. *)
Inductive ReadResult := ReadBytes (bytes : list Z) | ReadEof | ReadTimedOut | ReadFailed.

Section Intake.

(** [serde_json::from_slice::<Request>(&buffer).is_ok()]. *)
Variable is_request : list Z -> bool.

(** The read loop.  [reads] are the results of the successive reads; a
    connection that has nothing more to give reads [Ok(0)].  It returns the
    error messages the loop sends and the buffer to go on with ([None]
    when the handler returns). *)
Fixpoint read_loop (max_buffer_size : Z) (reads : list ReadResult) (buffer : list Z)
    (total_read : Z) : list (list Z) * option (list Z) :=
  match reads with
  | [] | ReadEof :: _ => ([], Some buffer)
  | ReadBytes chunk :: rest =>
      let total_read := wrap_u64 (total_read + Z.of_nat (List.length chunk)) in
      let buffer := buffer ++ chunk in
      if is_request buffer then ([], Some buffer)
      else if max_buffer_size <? total_read then ([s2l "Request too large"], None)
      else read_loop max_buffer_size rest buffer total_read
  | ReadTimedOut :: _ =>
      (match buffer with [] => [s2l "Connection timeout"] | _ => [] end, Some buffer)
  | ReadFailed :: _ => ([], None)
  end.

(** The loop and the empty-buffer check after it: the messages passed to
    [send_error] in order, and the buffer handed to the JSON parse. *)
Definition read_request (max_buffer_size : Z) (reads : list ReadResult)
    : list (list Z) * option (list Z) :=
  let (sent, r) := read_loop max_buffer_size reads [] 0 in
  match r with
  | Some [] => (sent ++ [s2l "Empty request received"], None)
  | _ => (sent, r)
  end.

End Intake.

Definition rm_rf_request : Value :=
  JObject [(s2l "command", JString (s2l "rm -rf /"))].

Definition no_ws_head (s : list Z) : Prop :=
  match s with [] => True | c :: _ => is_ws c = false end.

Definition prompt_request : Value :=
  JObject [(s2l "terminal_output", JString (s2l "ls
user@host:~/src$ "))].

Definition chunks_fit (reads : list ReadResult) : Prop :=
  Forall (fun r => match r with ReadBytes c => Z.of_nat (List.length c) <= 8192 | _ => True end) reads.

(** ** tmux.rs *)
Section PromptWait.

(** [capture_pane(session, 50)] at the [i]-th poll of [wait_for_prompt]. *)
Variable capture_pane : nat -> result (list Z) (list Z).

(** The [for] loop of [wait_for_prompt]: [fuel] iterations left, [i] the
    current one. *)
Fixpoint prompt_loop (fuel : nat) (i : nat) (previous_output : list Z) (stable_count : Z)
    : result (list Z) (list Z) :=
  match fuel with
  | O => Ok previous_output
  | S fuel' =>
      match capture_pane i with
      | Err e => Err e
      | Ok current_output =>
          if list_eqb current_output previous_output then
            let stable_count := stable_count + 1 in
            if 6 <=? stable_count then Ok current_output
            else prompt_loop fuel' (S i) previous_output stable_count
          else prompt_loop fuel' (S i) current_output 0
      end
  end.

(** [wait_for_prompt]; [None] is the panic of the division by a zero
    [poll_interval_ms]. *)
Definition wait_for_prompt (max_wait_ms poll_interval_ms : Z) : option (result (list Z) (list Z)) :=
  if poll_interval_ms =? 0 then None
  else Some (prompt_loop (Z.to_nat (max_wait_ms / poll_interval_ms)) 0 [] 0).

End PromptWait.

(** [list_sessions] on the output of [tmux list-sessions]. *)
Definition list_sessions (output : list Z) : list (list Z) :=
  filter (fun s => negb (list_eqb s [])) (map trim (lines output)).

(** A pane whose content changes at every poll, and one that never changes. *)
Definition counting_pane (j : nat) : result (list Z) (list Z) := Ok [Z.of_nat j].

Definition idle_pane (_ : nat) : result (list Z) (list Z) := Ok (s2l "user@host:~$ ").

Definition zero_poll_env (k : list Z) : option (list Z) :=
  if list_eqb k (s2l "ARCHY_POLL_INTERVAL") then Some (s2l "0") else None.

Definition ascii_alpha (c : Z) : bool := ((65 <=? c) && (c <=? 90)) || ((97 <=? c) && (c <=? 122)).

(** ** Theorems *)

Lemma list_eqb_spec : forall a b, list_eqb a b = true <-> a = b.
Proof.
  induction a as [|x a IH]; destruct b as [|y b]; simpl; split; intro H;
    try discriminate; try reflexivity.
  - apply andb_prop in H as [H1 H2]. apply Z.eqb_eq in H1.
    apply IH in H2. subst. reflexivity.
  - inversion H; subst. rewrite Z.eqb_refl. simpl. apply IH. reflexivity.
Qed.


Lemma list_eqb_refl : forall a, list_eqb a a = true.
Proof. intro a. apply list_eqb_spec. reflexivity. Qed.

Lemma starts_with_spec : forall p s, starts_with s p = true <-> exists b, s = p ++ b.
Proof.
  induction p as [|c p IH]; intros s; simpl.
  - split; [intros _; exists s; reflexivity | intros _; destruct s; reflexivity].
  - destruct s as [|d s]; split.
    + discriminate.
    + intros [b Hb]. discriminate.
    + intro H. apply andb_prop in H as [H1 H2]. apply Z.eqb_eq in H1. subst.
      apply IH in H2 as [b Hb]. exists b. subst. reflexivity.
    + intros [b Hb]. inversion Hb; subst. simpl. rewrite Z.eqb_refl. simpl.
      apply IH. exists b. reflexivity.
Qed.

Lemma contains_spec : forall s p, contains s p = true <-> exists a b, s = a ++ p ++ b.
Proof.
  induction s as [|c s IH]; intros p.
  - change (contains [] p) with (starts_with [] p). rewrite starts_with_spec. split.
    + intros [b Hb]. exists [], b. exact Hb.
    + intros [a [b Hab]]. exists b. destruct a; [exact Hab | discriminate].
  - change (contains (c :: s) p) with (starts_with (c :: s) p || contains s p).
    rewrite orb_true_iff, starts_with_spec, IH. split.
    + intros [[b Hb] | [a [b Hab]]].
      * exists [], b. exact Hb.
      * exists (c :: a), b. rewrite Hab. reflexivity.
    + intros [a [b Hab]]. destruct a as [|d a].
      * left. exists b. exact Hab.
      * right. inversion Hab; subst. exists a, b. reflexivity.
Qed.

Lemma contains_app_mid : forall a p b, contains (a ++ p ++ b) p = true.
Proof. intros. apply contains_spec. exists a, b. reflexivity. Qed.

Lemma ascii_lower_ascii : forall c, is_ascii (ascii_lower c) = true -> is_ascii c = true.
Proof.
  intro c. unfold ascii_lower, is_ascii.
  destruct ((65 <=? c) && (c <=? 90)) eqn:E; [|tauto].
  apply andb_prop in E as [E1 E2]. apply Z.leb_le in E1. apply Z.leb_le in E2.
  intros _. apply andb_true_iff. split; [apply Z.leb_le | apply Z.ltb_lt]; lia.
Qed.

(** *** The completion detector, one poll at a time *)

Lemma poll_step_ok : forall tl command st bytes cur,
  from_utf8 bytes = Some cur ->
  poll_step tl command (Some (mkCmdOutput true bytes)) st = observe tl command cur st.
Proof. intros tl command st bytes cur H. unfold poll_step. simpl. rewrite H. reflexivity. Qed.

Lemma observe_done : forall tl command cur st out,
  observe tl command cur st = Done out <->
  out = cur /\
  (required_stable_checks <= stable_count (update_stability cur st))%nat /\
  exists l, last_line_of cur = Some l /\ has_prompt l = true
            /\ (command = [] \/ contains l command = false)
            /\ waiting_for_password tl l = false.
Proof.
  intros tl command cur st out. unfold observe.
  destruct (last_line_of cur) as [l|] eqn:El.
  - destruct (negb (waiting_for_password tl l) && has_prompt l
              && command_not_echoed l command
              && (required_stable_checks <=? stable_count (update_stability cur st))%nat)
      eqn:E.
    + repeat rewrite andb_true_iff in E. destruct E as [[[E1 E2] E3] E4].
      apply negb_true_iff in E1. apply Nat.leb_le in E4.
      split.
      * intro H. inversion H; subst. split; [reflexivity|]. split; [exact E4|].
        exists l. split; [reflexivity|]. split; [exact E2|]. split; [|exact E1].
        unfold command_not_echoed in E3. apply orb_true_iff in E3 as [E3|E3].
        -- right. apply negb_true_iff. exact E3.
        -- left. apply list_eqb_spec. exact E3.
      * intros [-> _]. reflexivity.
    + split; [discriminate|]. intros [_ [H4 [l' [Hl [H2 [H3 H1]]]]]].
      inversion Hl; subst l'.
      assert (E3 : command_not_echoed l command = true).
      { unfold command_not_echoed. apply orb_true_iff. destruct H3 as [H3|H3].
        - right. subst. reflexivity.
        - left. rewrite H3. reflexivity. }
      apply Nat.leb_le in H4. rewrite H1, H2, E3, H4 in E. discriminate.
  - split; [discriminate|]. intros [_ [_ [l [Hl _]]]]. discriminate.
Qed.

(** C1 (amended): on a poll whose capture succeeds and decodes to [cur],
    the detector returns Stable, with [cur], exactly when the stability
    counter after this poll is at least 3 and the last line of the
    whitespace-trimmed capture has a prompt glyph, does not contain the
    non-empty command and has no password-prompt marker. *)
Theorem C1_poll_stable_iff : forall tl command st bytes cur out,
  from_utf8 bytes = Some cur ->
  poll_step tl command (Some (mkCmdOutput true bytes)) st = Done out <->
  out = cur /\
  (required_stable_checks <= stable_count (update_stability cur st))%nat /\
  exists l, last_line_of cur = Some l /\ has_prompt l = true
            /\ (command = [] \/ contains l command = false)
            /\ waiting_for_password tl l = false.
Proof.
  intros tl command st bytes cur out H. rewrite (poll_step_ok tl command st bytes cur H).
  apply observe_done.
Qed.

Lemma C1_poll_stable_iff_witness :
  poll_step lower_ascii (s2l "ls") (Some (mkCmdOutput true (s2l "u$ ")))
            (mkWaitState (s2l "u$ ") 2) = Done (s2l "u$ ").
Proof.
  apply (proj2 (C1_poll_stable_iff lower_ascii (s2l "ls") (mkWaitState (s2l "u$ ") 2)
                  (s2l "u$ ") (s2l "u$ ") (s2l "u$ ") eq_refl)).
  split; [reflexivity|]. split; [vm_compute; lia|].
  exists (s2l "u$"). split; [reflexivity|]. split; [reflexivity|].
  split; [right; reflexivity | reflexivity].
Defined.

(** C1 (as stated, refuted): with the command [ls ] (trailing blank) and a
    prompt line ending in [ls ], the last non-empty line of every capture
    contains the command, yet the detector returns Stable on the fourth
    identical capture, because it inspects the last line of the trimmed
    capture, [u$ ls]. *)
Lemma C1_counterexample :
  let cur := s2l "u$ ls " in
  let command := s2l "ls " in
  last_nonempty_line cur = Some cur /\ contains cur command = true /\
  wait_for_command_completion lower_ascii
    (mkWaitRequest None (Some 10) (Some 100) (Some command))
    (fun i => Z.of_nat i * 10 ^ 8) (fun _ => Some (mkCmdOutput true cur))
  = Some (mkResponse true (Some cur) None (Some true)).
Proof. vm_compute. split; [reflexivity | split; reflexivity]. Qed.

(** *** Password prompts *)

Lemma lower_ascii_keeps_ascii : lowercase_keeps_ascii lower_ascii.
Proof.
  intros a q b _. exists (lower_ascii a), (lower_ascii b).
  unfold lower_ascii. rewrite !map_app. reflexivity.
Qed.

Lemma ci_contains_lower : forall tl l p,
  lowercase_keeps_ascii tl -> forallb is_ascii p = true ->
  ci_contains l p -> contains (tl l) p = true.
Proof.
  intros tl l p Htl Hp [a [q [b [-> Hq]]]].
  assert (Hqa : forallb is_ascii q = true).
  { rewrite <- Hq in Hp. clear Hq. induction q as [|c q IH]; [reflexivity|].
    simpl in *. apply andb_prop in Hp as [H1 H2].
    rewrite (ascii_lower_ascii c H1). apply IH. exact H2. }
  destruct (Htl a q b Hqa) as [a' [b' ->]].
  unfold lower_ascii. rewrite Hq. apply contains_app_mid.
Qed.

(** C2: a poll whose last line holds [[sudo] password for user:], or, up to
    ASCII case, [password for] or [[sudo]], never returns Stable, whatever
    the stability counter, prompt and echo conditions. *)
Theorem C2_password_prompt_never_stable : forall tl,
  lowercase_keeps_ascii tl ->
  forall command st bytes cur l out,
  from_utf8 bytes = Some cur -> last_line_of cur = Some l ->
  contains l (s2l "[sudo] password for user:") = true
  \/ ci_contains l (s2l "password for") \/ ci_contains l (s2l "[sudo]") ->
  poll_step tl command (Some (mkCmdOutput true bytes)) st <> Done out.
Proof.
  intros tl Htl command st bytes cur l out Hdec Hl Hpw Hdone.
  assert (Hw : waiting_for_password tl l = true).
  { unfold waiting_for_password. apply orb_true_iff.
    destruct Hpw as [Hpw | [Hpw | Hpw]].
    - right. apply (ci_contains_lower tl l (s2l "[sudo]") Htl eq_refl).
      apply contains_spec in Hpw as [a [b ->]].
      exists a, (s2l "[sudo]"), (s2l " password for user:" ++ b).
      split; reflexivity.
    - left. exact (ci_contains_lower tl l (s2l "password for") Htl eq_refl Hpw).
    - right. exact (ci_contains_lower tl l (s2l "[sudo]") Htl eq_refl Hpw). }
  rewrite (poll_step_ok tl command st bytes cur Hdec) in Hdone.
  apply observe_done in Hdone as [_ [_ [l' [Hl' [_ [_ Hnw]]]]]].
  rewrite Hl in Hl'. inversion Hl'; subst l'. rewrite Hw in Hnw. discriminate.
Qed.

Lemma C2_password_prompt_never_stable_witness :
  poll_step lower_ascii (s2l "sudo ls")
    (Some (mkCmdOutput true (s2l "$ sudo ls
[sudo] password for user: ")))
    (mkWaitState (s2l "$ sudo ls
[sudo] password for user: ") 7)
  <> Done (s2l "$ sudo ls
[sudo] password for user: ").
Proof.
  apply (C2_password_prompt_never_stable lower_ascii lower_ascii_keeps_ascii
           (s2l "sudo ls") _ _ (s2l "$ sudo ls
[sudo] password for user: ") (s2l "[sudo] password for user:") _).
  - vm_compute. reflexivity.
  - vm_compute. reflexivity.
  - left. vm_compute. reflexivity.
Defined.

(** *** The loop *)

Lemma wait_loop_ends : forall tl command max el cap m i st,
  max <= el (i + m)%nat ->
  exists o, wait_loop tl command max el cap (S m) i st = Some o.
Proof.
  intros tl command max el cap m. induction m as [|m IH]; intros i st Hm; simpl.
  - rewrite Nat.add_0_r in Hm. destruct (el i <? max) eqn:E.
    + apply Z.ltb_lt in E. lia.
    + eexists. reflexivity.
  - destruct (el i <? max); [|eexists; reflexivity].
    destruct (poll_step tl command (cap i) st) as [st'|out].
    + apply IH. rewrite Nat.add_succ_r in Hm. exact Hm.
    + eexists. reflexivity.
Qed.

Lemma wait_loop_polls : forall tl command max el cap n st,
  polls tl command cap n = Continue st ->
  (forall j, (j < n)%nat -> el j < max) ->
  forall fuel, wait_loop tl command max el cap (fuel + n) 0 (mkWaitState [] 0)
               = wait_loop tl command max el cap fuel n st.
Proof.
  intros tl command max el cap n. induction n as [|k IH]; intros st Hp Hel fuel.
  - simpl in Hp. inversion Hp; subst. rewrite Nat.add_0_r. reflexivity.
  - simpl in Hp. destruct (polls tl command cap k) as [st0|out] eqn:Hk; [|discriminate].
    rewrite Nat.add_succ_r, <- Nat.add_succ_l.
    rewrite (IH st0 eq_refl (fun j Hj => Hel j (Nat.lt_lt_succ_r _ _ Hj)) (S fuel)).
    simpl. assert (Hlt : el k < max) by (apply Hel; lia).
    apply Z.ltb_lt in Hlt. rewrite Hlt, Hp. reflexivity.
Qed.

Lemma wait_loop_all_fail : forall tl command max el cap m i st,
  (forall j, capture_fails (cap j)) -> max <= el (i + m)%nat ->
  wait_loop tl command max el cap (S m) i st = Some (TimedOut (last_output st)).
Proof.
  intros tl command max el cap m. induction m as [|m IH]; intros i st Hf Hm; simpl.
  - rewrite Nat.add_0_r in Hm. destruct (el i <? max) eqn:E; [|reflexivity].
    apply Z.ltb_lt in E. lia.
  - destruct (el i <? max); [|reflexivity].
    destruct (Hf i) as [-> | [[bs ->] | [bs [-> Hbs]]]]; simpl;
      try rewrite Hbs; apply IH; try exact Hf; rewrite Nat.add_succ_r in Hm; exact Hm.
Qed.

Lemma check_interval_pos : forall data, 0 < check_interval data.
Proof. intro data. unfold check_interval, check_interval_ms. lia. Qed.

Lemma wait_fuel_spec : forall data,
  exists m, wait_fuel data = S m /\ max_duration data < Z.of_nat m * check_interval data.
Proof.
  intro data. exists (S (Z.to_nat (max_duration data / check_interval data))).
  split; [reflexivity|]. pose proof (check_interval_pos data) as Hc.
  pose proof (Z.mul_succ_div_gt (max_duration data) (check_interval data) Hc) as Hg.
  rewrite Nat2Z.inj_succ. set (q := max_duration data / check_interval data) in *.
  assert (q <= Z.of_nat (Z.to_nat q)) by lia. nia.
Qed.

Lemma polls_before_fuel : forall data el n,
  (forall i, Z.of_nat i * check_interval data <= el i) ->
  (forall j, (j < n)%nat -> el j < max_duration data) ->
  (n < wait_fuel data)%nat.
Proof.
  intros data el n Hclk Hel. unfold wait_fuel.
  pose proof (check_interval_pos data) as Hc.
  destruct n as [|k]; [lia|].
  assert (Hk : el k < max_duration data) by (apply Hel; lia).
  specialize (Hclk k).
  assert (Z.of_nat k <= max_duration data / check_interval data).
  { apply Z.div_le_lower_bound; lia. }
  lia.
Qed.

(** C3: under the clock that [thread::sleep] guarantees (iteration [i]
    starts at least [i] poll intervals after the start), every invocation
    returns exactly one outcome, Stable or TimedOut; if the time limit is
    reached while the loop is still polling, the outcome is TimedOut with
    the saved previous capture; and the handlers surface that as the
    [from_timeout] envelope, [status = "timeout"], [success = false],
    carrying the partial text. *)
Theorem C3_single_outcome_and_timeout : forall tl data el cap,
  (forall i, Z.of_nat i * check_interval data <= el i) ->
  (exists o, wait_for_command_completion tl data el cap = Some (to_response o))
  /\ (forall n st,
        polls tl (unwrap_or [] (req_command data)) cap n = Continue st ->
        (forall j, (j < n)%nat -> el j < max_duration data) ->
        max_duration data <= el n ->
        wait_for_command_completion tl data el cap
        = Some (to_response (TimedOut (last_output st))))
  /\ (forall fe sc fco command partial,
        let d := surface_wait_result fe sc fco command (to_response (TimedOut partial)) in
        d = from_timeout fe sc command partial /\ d_status d = s2l "timeout"
        /\ d_success d = false /\ d_raw_output d = partial).
Proof.
  intros tl data el cap Hclk. split; [|split].
  - unfold wait_for_command_completion.
    destruct (wait_fuel_spec data) as [m [Hf Hm]]. rewrite Hf.
    destruct (wait_loop_ends tl (unwrap_or [] (req_command data)) (max_duration data)
                el cap m 0 (mkWaitState [] 0)) as [o Ho].
    + simpl. specialize (Hclk m). lia.
    + rewrite Ho. exists o. reflexivity.
  - intros n st Hp Hel Hn. unfold wait_for_command_completion.
    pose proof (polls_before_fuel data el n Hclk Hel) as Hlt.
    replace (wait_fuel data) with (S (wait_fuel data - S n) + n)%nat by lia.
    rewrite (wait_loop_polls tl _ _ el cap n st Hp Hel). simpl.
    destruct (el n <? max_duration data) eqn:E; [apply Z.ltb_lt in E; lia|].
    reflexivity.
  - intros fe sc fco command partial. simpl. repeat split; reflexivity.
Qed.

Lemma C3_single_outcome_and_timeout_witness :
  let data := mkWaitRequest None (Some 1) (Some 100) (Some (s2l "sleep 9999")) in
  wait_for_command_completion lower_ascii data
    (fun i => Z.of_nat i * check_interval data)
    (fun _ => Some (mkCmdOutput true (s2l "$ sleep 9999")))
  = Some (to_response (TimedOut (s2l "$ sleep 9999"))).
Proof.
  intro data.
  rewrite (proj1 (proj2 (C3_single_outcome_and_timeout lower_ascii data
             (fun i => Z.of_nat i * check_interval data)
             (fun _ => Some (mkCmdOutput true (s2l "$ sleep 9999")))
             (fun i => Z.le_refl _)))
             10%nat (mkWaitState (s2l "$ sleep 9999") 9)).
  - reflexivity.
  - vm_compute. reflexivity.
  - intros j Hj. change (check_interval data) with 100000000.
    change (max_duration data) with 1000000000. lia.
  - change (check_interval data) with 100000000.
    change (max_duration data) with 1000000000. simpl. lia.
Defined.

(** C8: the wait limit is [min(max_wait, 3600)] seconds, so at most
    3,600,000 ms, and the poll interval is [max(interval_ms, 100)] ms, so at
    least 100 ms; these are the values the loop runs with. *)
Theorem C8_wait_parameters_clamped : forall data,
  max_duration data = Z.min (unwrap_or 600 (req_max_wait data)) 3600 * 10 ^ 9
  /\ max_duration data / 10 ^ 6 <= 3600000
  /\ check_interval data = Z.max (unwrap_or 500 (req_interval_ms data)) 100 * 10 ^ 6
  /\ 100 <= check_interval data / 10 ^ 6.
Proof.
  intro data. unfold max_duration, check_interval, max_wait_seconds, check_interval_ms.
  set (w := unwrap_or 600 (req_max_wait data)).
  set (v := unwrap_or 500 (req_interval_ms data)).
  split; [reflexivity|]. split.
  - replace (Z.min w 3600 * 10 ^ 9) with (Z.min w 3600 * 1000 * 10 ^ 6) by ring.
    rewrite Z.div_mul by lia. lia.
  - split; [reflexivity|]. rewrite Z.div_mul by lia. lia.
Qed.

(** C9: an iteration whose capture fails (no process, failure status, or
    bytes that are not UTF-8) leaves the loop variables as they were; if
    every capture fails, the wait ends TimedOut with the empty text, never
    with an error. *)
Theorem C9_failed_capture_skipped : forall tl data el cap,
  (forall i, Z.of_nat i * check_interval data <= el i) ->
  (forall command st c, capture_fails c -> poll_step tl command c st = Continue st)
  /\ ((forall i, capture_fails (cap i)) ->
      wait_for_command_completion tl data el cap = Some (to_response (TimedOut []))).
Proof.
  intros tl data el cap Hclk. split.
  - intros command st c [-> | [[bs ->] | [bs [-> Hbs]]]]; simpl; try rewrite Hbs;
      reflexivity.
  - intro Hf. unfold wait_for_command_completion.
    destruct (wait_fuel_spec data) as [m [Hfu Hm]]. rewrite Hfu.
    rewrite wait_loop_all_fail; [reflexivity | exact Hf |].
    simpl. specialize (Hclk m). lia.
Qed.

Lemma C9_failed_capture_skipped_witness :
  let data := mkWaitRequest None (Some 2) None (Some (s2l "ls")) in
  wait_for_command_completion lower_ascii data (fun i => Z.of_nat i * check_interval data)
    (fun _ => None) = Some (to_response (TimedOut [])).
Proof.
  intro data.
  apply (proj2 (C9_failed_capture_skipped lower_ascii data
           (fun i => Z.of_nat i * check_interval data) (fun _ => None)
           (fun i => Z.le_refl _))).
  intro i. left. reflexivity.
Defined.

(** *** Classification *)

Ltac split_ifs :=
  repeat match goal with
         | |- context [if ?b then _ else _] => destruct b
         end.

(** C4: [detect_format] maps every pair of texts, empty ones included, to
    one of the format names; it is the first rule that fires in the
    command-name tier followed by the content tier, in list order, and
    [plain_text] when none fires. *)
Theorem C4_detect_format_total_first_match : forall tl output command,
  detect_format tl output command
  = first_match (command_tier tl command ++ content_tier tl output) (s2l "plain_text")
  /\ In (detect_format tl output command) format_names
  /\ (forallb (fun r => negb (fst r)) (command_tier tl command ++ content_tier tl output)
      = true -> detect_format tl output command = s2l "plain_text").
Proof.
  intros tl output command.
  unfold detect_format, command_tier, content_tier, format_names. simpl.
  split; [|split].
  - split_ifs; reflexivity.
  - split_ifs; simpl; tauto.
  - split_ifs; simpl; intro H; try discriminate; reflexivity.
Qed.

(** *** Disk usage *)

Lemma disk_finding_levels : forall fsname u,
  (90 < u -> exists m, disk_finding fsname u = [mkFinding (s2l "Disk Space Critical") m Critical]
                       /\ contains m fsname = true)
  /\ (80 < u <= 90 -> exists m, disk_finding fsname u
                                = [mkFinding (s2l "Disk Space Warning") m High]
                                /\ contains m fsname = true)
  /\ (u <= 80 -> disk_finding fsname u = []).
Proof.
  intros fsname u. unfold disk_finding.
  destruct (90 <? u) eqn:E1; destruct (80 <? u) eqn:E2;
    rewrite ?Z.ltb_lt, ?Z.ltb_ge in E1, E2; (split; [|split]); intro H; try lia;
    try reflexivity; eexists; (split; [reflexivity|]);
    apply contains_spec; exists []; eexists; reflexivity.
Qed.

(** C5: every parsed [df] row gets a Critical finding above 90%, a High
    one above 80% up to 90%, and none at 80% or below, the message naming
    the filesystem; and the [df -h] capture with the row
    [/dev/sda1 100G 96G 2G 96% /] is classified [disk_usage], with one
    filesystem entry at 96% and one Critical finding about [/dev/sda1]. *)
Theorem C5_disk_thresholds_and_df_scenario : forall tl isal isd js ho,
  lowercase_ascii_text tl ->
  (forall line fs fnd, disk_line line = Some (fs, fnd) ->
     exists fsname u,
       jget fs (s2l "filesystem") = Some (JString fsname)
       /\ jget fs (s2l "usage_percent") = Some (num u)
       /\ (90 < u -> exists m, fnd = [mkFinding (s2l "Disk Space Critical") m Critical]
                               /\ contains m fsname = true)
       /\ (80 < u <= 90 -> exists m, fnd = [mkFinding (s2l "Disk Space Warning") m High]
                                     /\ contains m fsname = true)
       /\ (u <= 80 -> fnd = []))
  /\ (let p := parse_intelligently tl isal isd js ho df_capture (s2l "df -h") in
      format_detected (metadata p) = s2l "disk_usage"
      /\ structured p = JObject [(s2l "filesystems", JArray [
           JObject [(s2l "available", JString (s2l "2G"));
                    (s2l "filesystem", JString (s2l "/dev/sda1"));
                    (s2l "mount", JString (s2l "/"));
                    (s2l "size", JString (s2l "100G"));
                    (s2l "usage_percent", num 96);
                    (s2l "used", JString (s2l "96G"))]])]
      /\ findings p = [mkFinding (s2l "Disk Space Critical")
                                 (s2l "/dev/sda1 is 96% full") Critical]).
Proof.
  intros tl isal isd js ho Htl. split.
  - intros line fs fnd H. unfold disk_line in H.
    destruct (contains_char line 37); [|discriminate].
    destruct (5 <=? List.length (split_whitespace line))%nat; [|discriminate].
    destruct (find _ _) as [usage_str|]; [|discriminate].
    destruct (parse_u8 _) as [usage|]; [|discriminate].
    inversion H; subst fs fnd. clear H.
    exists (nth 0 (split_whitespace line) []), usage.
    split; [reflexivity|]. split; [reflexivity|].
    apply disk_finding_levels.
  - unfold parse_intelligently, detect_format.
    rewrite (Htl (s2l "df -h") eq_refl).
    vm_compute. split; [|split]; reflexivity.
Qed.

Lemma C5_disk_thresholds_and_df_scenario_witness :
  findings (parse_intelligently lower_ascii (fun _ => false) (fun _ => false)
              (fun _ => None) (fun l => l) df_capture (s2l "df -h"))
  = [mkFinding (s2l "Disk Space Critical") (s2l "/dev/sda1 is 96% full") Critical].
Proof.
  apply (proj2 (C5_disk_thresholds_and_df_scenario lower_ascii (fun _ => false)
                  (fun _ => false) (fun _ => None) (fun l => l)
                  (fun q _ => eq_refl))).
Defined.

(** *** Metadata and dispatch *)

Ltac split_pairs :=
  repeat match goal with
         | |- context [match ?e with pair _ _ => _ end] => destruct e
         end.

Lemma extractor_keeps_metadata : forall tl isal isd js ho f r m,
  metadata (extractor_for tl isal isd js ho f r m) = m.
Proof.
  intros. unfold extractor_for.
  split_ifs;
    unfold parse_nmap, parse_network_table, parse_process_table, parse_ls_long,
      parse_ip_addr, parse_systemctl, parse_disk_usage, parse_journalctl, parse_json,
      parse_generic;
    split_pairs; reflexivity.
Qed.

(** C6: [parse_intelligently] computes the metadata (line count, byte
    count, detected format) before dispatch, runs the extractor that the
    detected format selects, and that extractor, like every extractor,
    returns the metadata unchanged; so [format_detected] is the format that
    chose the extractor. *)
Theorem C6_metadata_before_dispatch : forall tl isal isd js ho raw command,
  let format := detect_format tl raw command in
  let md := mkMetadata (List.length (lines raw)) (utf8_len raw) None format in
  parse_intelligently tl isal isd js ho raw command
    = extractor_for tl isal isd js ho format raw md
  /\ metadata (parse_intelligently tl isal isd js ho raw command) = md
  /\ format_detected (metadata (parse_intelligently tl isal isd js ho raw command)) = format
  /\ (forall f r m, metadata (extractor_for tl isal isd js ho f r m) = m).
Proof.
  intros tl isal isd js ho raw command format md.
  assert (Hm : metadata (parse_intelligently tl isal isd js ho raw command) = md).
  { unfold parse_intelligently. apply extractor_keeps_metadata. }
  split; [reflexivity|]. split; [exact Hm|]. split.
  - rewrite Hm. reflexivity.
  - apply extractor_keeps_metadata.
Qed.

(** *** JSON *)

(** C7: the JSON extractor never fails: text that serde_json parses gives
    exactly the parsed value as [structured], any other text gives
    [{raw: text}], and in both cases the one Info finding. *)
Theorem C7_json_roundtrip : forall js text md,
  (forall v, js text = Some v -> structured (parse_json js text md) = v)
  /\ (js text = None -> structured (parse_json js text md) = JObject [(s2l "raw", JString text)])
  /\ findings (parse_json js text md)
     = [mkFinding (s2l "Format") (s2l "JSON data detected and parsed") Info]
  /\ raw (parse_json js text md) = text.
Proof.
  intros js text md. unfold parse_json.
  split; [|split; [|split]]; try reflexivity.
  - intros v H. rewrite H. reflexivity.
  - intro H. rewrite H. reflexivity.
Qed.

(** *** Count findings *)

Ltac in_concrete :=
  simpl; split; intro H;
  repeat match goal with
         | H : _ \/ _ |- _ => destruct H as [H|H]
         | H : False |- _ => destruct H
         end;
  try discriminate; try lia; auto 10.

(** C10: the nmap extractor reports a Host Count finding exactly when the
    [hosts_up] it returns is positive, and the network-table extractor an
    Active Connections finding exactly when [established_count] is
    positive. *)
Theorem C10_count_findings_positive : forall tl raw md,
  (exists h, jget (structured (parse_nmap tl raw md)) (s2l "hosts_up") = Some (num h)
     /\ (In (s2l "Host Count") (map category (findings (parse_nmap tl raw md))) <-> 0 < h))
  /\ (exists e,
        jget (structured (parse_network_table tl raw md)) (s2l "established_count")
          = Some (num e)
        /\ (In (s2l "Active Connections")
               (map category (findings (parse_network_table tl raw md))) <-> 0 < e)).
Proof.
  intros tl raw md. split.
  - unfold parse_nmap. destruct (nmap_scan tl raw) as [[h ports] svcs].
    exists h. split; [reflexivity|].
    destruct (0 <? h) eqn:E; [apply Z.ltb_lt in E | apply Z.ltb_ge in E];
      destruct ports, svcs; in_concrete.
  - unfold parse_network_table. destruct (net_scan tl raw) as [[conns est] lis].
    exists est. split; [reflexivity|].
    destruct (0 <? est) eqn:E; [apply Z.ltb_lt in E | apply Z.ltb_ge in E];
      destruct (0 <? lis); in_concrete.
Qed.

(** ** Further properties of the code *)

Lemma strip_go_nil : forall p, strip_go p [] = flush p.
Proof. reflexivity. Qed.

Lemma strip_step_code : forall buf c, list_eqb buf [27] = false -> is_code_char c = true ->
  strip_step (Some buf) c = ([], Some (buf ++ [c])).
Proof. intros buf c H1 H2. unfold strip_step. rewrite H1, H2. reflexivity. Qed.

Lemma strip_step_m : forall buf, list_eqb buf [27] = false ->
  strip_step (Some buf) 109 = ([], None).
Proof. intros buf H1. unfold strip_step. rewrite H1. reflexivity. Qed.

Lemma strip_step_esc : forall p, strip_step p 27 = (flush p, Some [27]).
Proof. intros [buf|]; [|reflexivity]. unfold strip_step. destruct (list_eqb buf [27]); reflexivity. Qed.

Lemma strip_go_cons : forall p c s,
  strip_go p (c :: s) = let (o, q) := strip_step p c in o ++ strip_go q s.
Proof. reflexivity. Qed.

(** A complete colour sequence is consumed from any state, emitting what
    was pending. *)
Lemma strip_go_code : forall p ds t, code_chars ds ->
  strip_go p ([27; 91] ++ ds ++ [109] ++ t) = flush p ++ strip_go None t.
Proof.
  intros p ds t Hds.
  assert (Hrun : forall buf, list_eqb buf [27] = false -> buf <> [] ->
            strip_go (Some buf) (ds ++ [109] ++ t) = strip_go None t).
  { induction ds as [|d ds IH]; intros buf H1 H2.
    - rewrite app_nil_l. change ([109] ++ t) with (109 :: t).
      rewrite strip_go_cons, strip_step_m by exact H1. reflexivity.
    - unfold code_chars in Hds. simpl in Hds. apply andb_prop in Hds as [Hd Hds].
      rewrite <- app_comm_cons, strip_go_cons, strip_step_code by assumption.
      cbv iota beta. rewrite app_nil_l. apply IH; [exact Hds| |].
      + destruct buf as [|x [|y buf]]; [congruence| |]; simpl.
        * rewrite andb_false_r. reflexivity.
        * rewrite andb_false_r. reflexivity.
      + destruct buf; discriminate. }
  change ([27; 91] ++ ds ++ [109] ++ t) with (27 :: 91 :: (ds ++ [109] ++ t)).
  rewrite strip_go_cons, strip_step_esc. cbv iota beta. f_equal.
  rewrite strip_go_cons. change (strip_step (Some [27]) 91) with ([] : list Z, Some [27; 91]).
  cbv iota beta. rewrite app_nil_l. apply Hrun; [reflexivity | discriminate].
Qed.

Lemma strip_go_app : forall s p t,
  strip_go p (s ++ t) = fst (strip_run p s) ++ strip_go (snd (strip_run p s)) t.
Proof.
  induction s as [|c s IH]; intros p t; simpl; [reflexivity|].
  destruct (strip_step p c) as [o q]. rewrite IH.
  destruct (strip_run q s) as [o' r]. simpl. rewrite app_assoc. reflexivity.
Qed.

Lemma strip_go_run : forall s p, strip_go p s = fst (strip_run p s) ++ flush (snd (strip_run p s)).
Proof. intros s p. rewrite <- (app_nil_r s) at 1. rewrite strip_go_app. reflexivity. Qed.

(** Removing one colour sequence splits the stripping. *)
Lemma strip_colors_splice : forall a ds b, code_chars ds ->
  strip_colors (a ++ [27; 91] ++ ds ++ [109] ++ b) = strip_colors a ++ strip_colors b.
Proof.
  intros a ds b Hds. unfold strip_colors.
  rewrite strip_go_app, strip_go_code by exact Hds.
  rewrite (strip_go_run a None), app_assoc. reflexivity.
Qed.

Lemma strip_colors_no_esc : forall s, ~ In 27 s -> strip_colors s = s.
Proof.
  unfold strip_colors. induction s as [|c s IH]; intro H; [reflexivity|].
  simpl. destruct (Z.eqb_spec c 27) as [E|E].
  - exfalso. apply H. left. congruence.
  - simpl. rewrite IH; [reflexivity|]. intro H'. apply H. right. exact H'.
Qed.

Lemma strip_colors_app_plain : forall p s, ~ In 27 p ->
  strip_colors (p ++ s) = p ++ strip_colors s.
Proof.
  unfold strip_colors. induction p as [|c p IH]; intros s H; [reflexivity|].
  simpl. destruct (Z.eqb_spec c 27) as [E|E].
  - exfalso. apply H. left. congruence.
  - simpl. rewrite IH; [reflexivity|]. intro H'. apply H. right. exact H'.
Qed.

(** [strip_colors] removes exactly the escape sequences that the colour helpers add: stripping [color_red s], ..., [color_dim s] gives [strip_colors s]. *)
Theorem strip_colors_removes_wrappers : forall s,
  strip_colors (color_red s) = strip_colors s
  /\ strip_colors (color_green s) = strip_colors s
  /\ strip_colors (color_yellow s) = strip_colors s
  /\ strip_colors (color_blue s) = strip_colors s
  /\ strip_colors (color_magenta s) = strip_colors s
  /\ strip_colors (color_cyan s) = strip_colors s
  /\ strip_colors (color_bold s) = strip_colors s
  /\ strip_colors (color_dim s) = strip_colors s.
Proof.
  intro s.
  assert (W : forall ds, code_chars ds ->
            strip_colors ([27; 91] ++ ds ++ [109] ++ s ++ ansi_reset) = strip_colors s).
  { intros ds Hds.
    rewrite <- (app_nil_l ([27; 91] ++ ds ++ [109] ++ s ++ ansi_reset)).
    rewrite strip_colors_splice by exact Hds. simpl app at 1.
    unfold ansi_reset. rewrite <- (app_nil_r (s ++ [27; 91; 48; 109])).
    rewrite <- app_assoc.
    change ([27; 91; 48; 109] ++ []) with ([27; 91] ++ [48] ++ [109] ++ []).
    rewrite strip_colors_splice by reflexivity. rewrite app_nil_r. reflexivity. }
  repeat split;
    [ exact (W [51; 49] eq_refl) | exact (W [51; 50] eq_refl) | exact (W [51; 51] eq_refl)
    | exact (W [51; 52] eq_refl) | exact (W [51; 53] eq_refl) | exact (W [51; 54] eq_refl)
    | exact (W [49] eq_refl) | exact (W [50] eq_refl) ].
Qed.

Lemma strip_colors_ansi : forall ds x y, code_chars ds ->
  strip_colors ([27; 91] ++ ds ++ [109] ++ x ++ ansi_reset ++ y)
  = strip_colors x ++ strip_colors y.
Proof.
  intros ds x y Hds. unfold strip_colors at 1.
  rewrite strip_go_code by exact Hds. simpl flush. rewrite app_nil_l.
  fold (strip_colors (x ++ ansi_reset ++ y)). unfold ansi_reset.
  change (x ++ [27; 91; 48; 109] ++ y) with (x ++ [27; 91] ++ [48] ++ [109] ++ y).
  rewrite strip_colors_splice by reflexivity. reflexivity.
Qed.

Lemma strip_colors_format_error : forall command err,
  strip_colors (format_error command err)
  = [10007] ++ s2l " Command failed: " ++ strip_colors command ++ [10]
    ++ s2l "  Error: " ++ strip_colors err ++ [10].
Proof.
  intros command err. unfold format_error, color_red.
  set (X := [10007] ++ s2l " Command failed: " ++ command).
  set (Y := s2l "  Error: " ++ err).
  replace (([27] ++ s2l "[31m" ++ X ++ ansi_reset) ++ [10]
           ++ ([27] ++ s2l "[31m" ++ Y ++ ansi_reset) ++ [10])
    with ([27; 91] ++ [51; 49] ++ [109] ++ X ++ ansi_reset
          ++ ([10] ++ ([27; 91] ++ [51; 49] ++ [109] ++ Y ++ ansi_reset ++ [10])))
    by (rewrite <- !app_assoc; reflexivity).
  rewrite strip_colors_ansi by reflexivity.
  rewrite (strip_colors_app_plain [10]) by (simpl; intuition discriminate).
  rewrite strip_colors_ansi by reflexivity.
  subst X Y.
  rewrite (strip_colors_app_plain [10007]) by (simpl; intuition discriminate).
  rewrite (strip_colors_app_plain (s2l " Command failed: ")) by (simpl; intuition discriminate).
  rewrite (strip_colors_app_plain (s2l "  Error: ")) by (simpl; intuition discriminate).
  rewrite (strip_colors_no_esc [10]) by (simpl; intuition discriminate).
  rewrite <- !app_assoc. reflexivity.
Qed.

(** [strip_colors] leaves a text without an ESC character unchanged. *)
Theorem strip_colors_plain_text : forall s, ~ In 27 s -> strip_colors s = s.
Proof. exact strip_colors_no_esc. Qed.

(** The plain display of the error and the timeout envelopes is the glyph line and the error line of [format_error] without their colours. *)
Theorem error_envelopes_plain_display : forall command err partial,
  d_display_plain (from_error format_error strip_colors command err)
    = [10007] ++ s2l " Command failed: " ++ strip_colors command ++ [10]
      ++ s2l "  Error: " ++ strip_colors err ++ [10]
  /\ d_display_plain (from_timeout format_error strip_colors command partial)
    = [10007] ++ s2l " Command failed: " ++ strip_colors command ++ [10]
      ++ s2l "  Error: " ++ s2l "Command timeout - may still be running" ++ [10].
Proof.
  intros command err partial. split; simpl; rewrite strip_colors_format_error; [reflexivity|].
  rewrite (strip_colors_no_esc (s2l "Command timeout - may still be running"))
    by (simpl; intuition discriminate).
  reflexivity.
Qed.

(** The plain display of [simple_success] is the check mark, a space, the message without colours and a newline, and its byte count is the message's byte length. *)
Theorem simple_success_plain_display : forall message,
  d_display_plain (simple_success message)
    = [226; 339; 8220; 32] ++ strip_colors message ++ [10]
  /\ byte_count (d_metadata (simple_success message)) = utf8_len message.
Proof.
  intro message. split; [|reflexivity]. unfold simple_success. cbn [d_display_plain]. unfold color_green.
  set (X := [226; 339; 8220] ++ s2l " " ++ message).
  replace (([27] ++ s2l "[32m" ++ X ++ ansi_reset) ++ [10])
    with ([27; 91] ++ [51; 50] ++ [109] ++ X ++ ansi_reset ++ [10])
    by (rewrite <- !app_assoc; reflexivity).
  rewrite strip_colors_ansi by reflexivity. subst X.
  rewrite (strip_colors_app_plain [226; 339; 8220]) by (simpl; intuition discriminate).
  rewrite (strip_colors_app_plain (s2l " ")) by (simpl; intuition discriminate).
  rewrite (strip_colors_no_esc [10]) by (simpl; intuition discriminate).
  rewrite <- !app_assoc. reflexivity.
Qed.

Lemma utf8_len_app : forall a b, utf8_len (a ++ b) = utf8_len a + utf8_len b.
Proof.
  induction a as [|c a IH]; intro b; [reflexivity|].
  change (utf8_width c + utf8_len (a ++ b) = utf8_width c + utf8_len a + utf8_len b).
  rewrite IH. lia.
Qed.

Lemma utf8_len_repeat_space : forall n, utf8_len (repeat 32 n) = Z.of_nat n.
Proof.
  induction n as [|n IH]; [reflexivity|].
  change (utf8_width 32 + utf8_len (repeat 32 n) = Z.of_nat (S n)). rewrite IH.
  change (utf8_width 32) with 1. lia.
Qed.

Lemma utf8_width_pos : forall c, 1 <= utf8_width c <= 4.
Proof. intro c. unfold utf8_width. repeat destruct (_ <? _); lia. Qed.

Lemma utf8_len_nonneg : forall s, 0 <= utf8_len s.
Proof.
  induction s as [|c s IH]; [simpl; lia|].
  change (0 <= utf8_width c + utf8_len s). pose proof (utf8_width_pos c). lia.
Qed.

Lemma pad_string_spec : forall s width, 0 <= width ->
  utf8_len (pad_string s width) = Z.max (utf8_len s) width
  /\ exists pad, pad_string s width = s ++ pad /\ Forall (eq 32) pad.
Proof.
  intros s width Hw. unfold pad_string.
  destruct (width <=? utf8_len s) eqn:E; [apply Z.leb_le in E | apply Z.leb_gt in E].
  - split; [lia|]. exists []. split; [rewrite app_nil_r; reflexivity | constructor].
  - split.
    + rewrite utf8_len_app, utf8_len_repeat_space. lia.
    + eexists. split; [reflexivity|]. apply Forall_forall. intros x Hx.
      apply repeat_spec in Hx. congruence.
Qed.

(** [pad_string] appends only spaces and makes the byte length [max (len s) width]. *)
Theorem pad_string_width : forall s width, 0 <= width ->
  utf8_len (pad_string s width) = Z.max (utf8_len s) width
  /\ exists pad, pad_string s width = s ++ pad /\ Forall (eq 32) pad.
Proof. exact pad_string_spec. Qed.

Lemma utf8_len_ascii : forall s, ascii_text s -> utf8_len s = Z.of_nat (List.length s).
Proof.
  unfold ascii_text. induction s as [|c s IH]; intro H; [reflexivity|].
  simpl in H. apply andb_prop in H as [Hc Hs].
  change (utf8_width c + utf8_len s = Z.of_nat (S (List.length s))).
  rewrite IH by exact Hs. unfold is_ascii in Hc. apply andb_prop in Hc as [_ Hc].
  unfold utf8_width. rewrite Hc. lia.
Qed.

Lemma byte_prefix_ascii : forall s n, ascii_text s -> (n <= List.length s)%nat ->
  byte_prefix (Z.of_nat n) s = Some (firstn n s).
Proof.
  unfold ascii_text. induction s as [|c s IH]; intros n H Hn.
  - destruct n; [reflexivity | simpl in Hn; lia].
  - simpl in H. apply andb_prop in H as [Hc Hs].
    unfold is_ascii in Hc. apply andb_prop in Hc as [_ Hc].
    destruct n as [|n]; [reflexivity|].
    change (byte_prefix (Z.of_nat (S n)) (c :: s)) with
      (if Z.of_nat (S n) =? 0 then Some []
       else if utf8_width c <=? Z.of_nat (S n)
            then option_map (cons c) (byte_prefix (Z.of_nat (S n) - utf8_width c) s)
            else None).
    rewrite (proj2 (Z.eqb_neq (Z.of_nat (S n)) 0)) by lia.
    unfold utf8_width. rewrite Hc.
    rewrite (proj2 (Z.leb_le 1 (Z.of_nat (S n)))) by lia.
    replace (Z.of_nat (S n) - 1) with (Z.of_nat n) by lia.
    rewrite IH by (exact Hs || (simpl in Hn; lia)). reflexivity.
Qed.

Lemma truncate_string_ascii_spec : forall s max_len, ascii_text s -> 0 <= max_len ->
  exists t, truncate_string s max_len = Some t
  /\ utf8_len t = (if utf8_len s <=? max_len then utf8_len s else Z.max max_len 3).
Proof.
  intros s max_len Hs Hm. unfold truncate_string.
  destruct (utf8_len s <=? max_len) eqn:E1; [eexists; split; reflexivity|].
  apply Z.leb_gt in E1.
  destruct (max_len <=? 3) eqn:E2; [apply Z.leb_le in E2 | apply Z.leb_gt in E2].
  - eexists. split; [reflexivity|]. simpl. lia.
  - rewrite utf8_len_ascii in E1 by exact Hs.
    replace (max_len - 3) with (Z.of_nat (Z.to_nat (max_len - 3))) by lia.
    rewrite byte_prefix_ascii by (assumption || lia).
    eexists. split; [reflexivity|].
    rewrite utf8_len_app, utf8_len_ascii.
    + rewrite length_firstn. simpl. lia.
    + unfold ascii_text in *. rewrite <- (firstn_skipn (Z.to_nat (max_len - 3)) s) in Hs.
      rewrite forallb_app in Hs. apply andb_prop in Hs as [Hs _]. exact Hs.
Qed.


(** On ASCII text, truncating to [width] and then padding to [width] gives a cell of exactly [width] bytes, once [width >= 3]. *)
Theorem table_cell_width : forall s width, ascii_text s -> 3 <= width ->
  exists cell, option_map (fun t => pad_string t width) (truncate_string s width) = Some cell
  /\ utf8_len cell = width.
Proof.
  intros s width Hs Hw.
  destruct (truncate_string_ascii_spec s width Hs) as [t [Ht Hl]]; [lia|].
  rewrite Ht. eexists. split; [reflexivity|].
  pose proof (utf8_len_nonneg s).
  destruct (pad_string_spec t width) as [Hp _]; [lia|]. rewrite Hp, Hl.
  destruct (utf8_len s <=? width) eqn:E; [apply Z.leb_le in E | apply Z.leb_gt in E]; lia.
Qed.

Lemma starts_with_nil : forall s, starts_with s [] = true.
Proof. intros [|c s]; reflexivity. Qed.

Lemma replace_all_aux_char : forall f s c r, (List.length s < f)%nat ->
  replace_all_aux f s [c] r = flat_map (fun d => if d =? c then r else [d]) s.
Proof.
  induction f as [|f IH]; intros s c r Hf; [lia|].
  destruct s as [|d s]; [reflexivity|]. simpl.
  destruct (c =? d) eqn:E; simpl.
  - rewrite starts_with_nil, Z.eqb_sym, E. f_equal. apply IH. simpl in Hf. lia.
  - rewrite Z.eqb_sym, E. simpl. f_equal. apply IH. simpl in Hf. lia.
Qed.

Lemma replace_all_char : forall s c r,
  replace_all s [c] r = flat_map (fun d => if d =? c then r else [d]) s.
Proof. intros s c r. apply replace_all_aux_char. lia. Qed.

Lemma flat_map_flat_map_ : forall (f g : Z -> list Z) s,
  flat_map f (flat_map g s) = flat_map (fun d => flat_map f (g d)) s.
Proof.
  intros f g s. induction s as [|d s IH]; [reflexivity|].
  simpl. rewrite flat_map_app, IH. reflexivity.
Qed.

Lemma escape_fold_flat_map : forall cs s,
  fold_left (fun acc c => replace_all acc [c] [92; c]) cs s
  = flat_map (fun d => fold_left (fun acc c => replace_all acc [c] [92; c]) cs [d]) s.
Proof.
  induction cs as [|c cs IH]; intro s; cbn [fold_left].
  - induction s as [|d s IHs]; [reflexivity|]. simpl. rewrite <- IHs. reflexivity.
  - rewrite IH, replace_all_char, flat_map_flat_map_. apply flat_map_ext.
    intro d. rewrite IH, replace_all_char. cbn [flat_map]. rewrite app_nil_r. reflexivity.
Qed.

(** One [replace] of the chain, once the backslash has been escaped. *)
Lemma esc_step : forall done c d, ~ In c done -> (done = [] \/ c <> 92) ->
  replace_all (esc done d) [c] [92; c] = esc (done ++ [c]) d.
Proof.
  intros done c d Hc Hd. rewrite replace_all_char. unfold esc.
  rewrite existsb_app. cbn [existsb]. rewrite orb_false_r.
  destruct (existsb (Z.eqb d) done) eqn:E.
  - assert (Hin : In d done).
    { apply existsb_exists in E as [x [Hx Ex]]. apply Z.eqb_eq in Ex. subst. exact Hx. }
    assert (c <> 92) by (destruct Hd; [subst; destruct Hin | exact H]).
    assert (d <> c) by (intro; subst; contradiction).
    cbn [flat_map]. rewrite (proj2 (Z.eqb_neq 92 c)) by congruence.
    rewrite (proj2 (Z.eqb_neq d c)) by exact H0. reflexivity.
  - cbn [flat_map orb]. destruct (Z.eqb_spec d c); [subst|]; reflexivity.
Qed.

Lemma escape_pgrep_flat_map : forall s,
  escape_pgrep_pattern s
  = flat_map (fun d => if existsb (Z.eqb d) pgrep_specials then [92; d] else [d]) s.
Proof.
  intro s. unfold escape_pgrep_pattern. rewrite escape_fold_flat_map.
  apply flat_map_ext. intro d. change [d] with (esc [] d). unfold pgrep_specials.
  cbn [fold_left].
  repeat (rewrite esc_step;
          [| simpl; intuition discriminate
           | (left; reflexivity) || (right; discriminate)]).
  reflexivity.
Qed.

(** The chain of fourteen [replace] calls of [escape_pgrep_pattern] escapes every special character exactly once, as a single left-to-right pass would; the backslash replacement comes first, so no backslash is escaped twice. *)
Theorem escape_pgrep_pattern_one_pass : forall s,
  escape_pgrep_pattern s
  = flat_map (fun d => if existsb (Z.eqb d) pgrep_specials then [92; d] else [d]) s.
Proof. exact escape_pgrep_flat_map. Qed.

(** [escape_pgrep_pattern] is injective: two session names with the same escaped pattern are equal. *)
Theorem escape_pgrep_pattern_injective : forall s1 s2,
  escape_pgrep_pattern s1 = escape_pgrep_pattern s2 -> s1 = s2.
Proof.
  intros s1 s2. rewrite !escape_pgrep_flat_map.
  revert s2. induction s1 as [|a s1 IH]; intros [|b s2] H; cbn [flat_map] in H.
  - reflexivity.
  - destruct (existsb (Z.eqb b) pgrep_specials); discriminate.
  - destruct (existsb (Z.eqb a) pgrep_specials); discriminate.
  - destruct (existsb (Z.eqb a) pgrep_specials) eqn:Ea;
      destruct (existsb (Z.eqb b) pgrep_specials) eqn:Eb; cbn [app] in H.
    + injection H as Hab H2. subst b. f_equal. apply IH. exact H2.
    + injection H as Hb H2. subst b. discriminate.
    + injection H as Ha H2. subst a. discriminate.
    + injection H as Hab H2. subst b. f_equal. apply IH. exact H2.
Qed.

(** A command that [validate_command] accepts has no NUL character, at most 8192 bytes and, after lower-casing, none of the blocked patterns. *)
Theorem validate_command_accepts : forall tl command,
  validate_command tl command = Ok tt ->
  ~ In 0 command /\ utf8_len command <= 8192
  /\ forall pattern, In pattern dangerous_patterns -> contains (tl command) pattern = false.
Proof.
  intros tl command H. unfold validate_command in H.
  destruct (contains_char command 0) eqn:E0; [discriminate|].
  destruct (8192 <? utf8_len command) eqn:E1; [discriminate|].
  destruct (find (fun pattern => contains (tl command) pattern) dangerous_patterns) eqn:E2;
    [discriminate|].
  split; [|split].
  - intro Hin. unfold contains_char in E0.
    assert (existsb (Z.eqb 0) command = true) by (apply existsb_exists; exists 0; auto).
    congruence.
  - apply Z.ltb_ge in E1. exact E1.
  - intros p Hp. destruct (contains (tl command) p) eqn:Ep; [|reflexivity].
    exfalso. pose proof (find_none _ _ E2 p Hp) as Hn. cbv beta in Hn. congruence.
Qed.

(** [validate_command] never reports the pattern "rm -rf /*": any command containing it also contains "rm -rf /", which comes first in the list. *)
Theorem validate_command_never_blocks_star : forall tl command,
  validate_command tl command <> Err (s2l "Blocked dangerous command pattern: rm -rf /*").
Proof.
  intros tl command H. unfold validate_command in H.
  destruct (contains_char command 0); [discriminate|].
  destruct (8192 <? utf8_len command); [discriminate|].
  set (lower := tl command) in H.
  destruct (find (fun pattern => contains lower pattern) dangerous_patterns) as [p|] eqn:E;
    [|discriminate].
  injection H as Hp. subst p.
  unfold dangerous_patterns in E. cbn [map find] in E.
  destruct (contains lower (s2l "rm -rf /")) eqn:E1.
  { injection E as E'. apply (f_equal (@List.length Z)) in E'. vm_compute in E'.
    discriminate. }
  destruct (contains lower (s2l "rm -rf /*")) eqn:E2;
    [| repeat match type of E with
              | (if ?b then _ else _) = _ =>
                  destruct b;
                  [inversion E|]
              end; discriminate].
  apply contains_spec in E2 as [a [b Hab]].
  assert (contains lower (s2l "rm -rf /") = true).
  { apply contains_spec. exists a, (s2l "*" ++ b). rewrite Hab. reflexivity. }
  congruence.
Qed.

(** [execute_command] sends to tmux only the extracted, non-blank command that [validate_command] accepted, to the session of [get_session]; a success response means the command was sent and reports it. *)
Theorem execute_command_sends_only_validated : forall tl hs ns sk data config,
  let (calls, r) := execute_command tl hs ns sk data config in
  (forall session command, In (SendKeys session command) calls ->
     extract_string data (s2l "command") = Ok command /\ trim command <> []
     /\ validate_command tl command = Ok tt /\ session = get_session config data)
  /\ (success r = true ->
      exists command, In (SendKeys (get_session config data) command) calls
        /\ output r = Some ([10003] ++ s2l " Executed: " ++ command)).
Proof.
  intros tl hs ns sk data config. unfold execute_command.
  destruct (extract_string data (s2l "command")) as [command|e] eqn:Ex;
    [|split; [intros ? ? H; simpl in H; contradiction | discriminate]].
  destruct (list_eqb (trim command) []) eqn:Eb; [split; [intros ? ? H; simpl in H; contradiction | discriminate]|].
  destruct (validate_command tl command) as [[]|e] eqn:Ev;
    [|split; [intros ? ? H; simpl in H; contradiction | discriminate]].
  assert (Hne : trim command <> []) by (intro H; rewrite H in Eb; discriminate).
  unfold ensure_session.
  destruct (hs (get_session config data));
    [|destruct (ns (get_session config data)) as [[]|e];
      [|split; [intros ? ? H; simpl in H; intuition discriminate | discriminate]]];
    (split;
     [ intros s c H; apply in_app_or in H;
       destruct H as [H|H]; simpl in H;
       [ intuition discriminate
       | destruct H as [H|[]]; injection H as <- <-; auto ]
     | destruct (sk (get_session config data) command); [|discriminate];
       intros _; exists command; split; [apply in_or_app; right; left; reflexivity
                                       | reflexivity]]).
Qed.

(** [handle_execute_and_wait] sends the command to an existing session without calling [validate_command]. *)
Theorem execute_and_wait_sends_unvalidated : forall hs ns se data command,
  get_as as_str data (s2l "command") = Some command ->
  hs (unwrap_or (s2l "archy_session") (get_as as_str data (s2l "session"))) = true ->
  In (SendKeys (unwrap_or (s2l "archy_session") (get_as as_str data (s2l "session"))) command)
     (fst (execute_and_wait_prelude hs ns se data)).
Proof.
  intros hs ns se data command Hc Hs. unfold execute_and_wait_prelude.
  rewrite Hc. unfold ensure_session. rewrite Hs.
  destruct (se _ command); simpl; right; left; reflexivity.
Qed.

Lemma execute_and_wait_sends_unvalidated_witness :
  validate_command lower_ascii (s2l "rm -rf /")
    = Err (s2l "Blocked dangerous command pattern: rm -rf /")
  /\ In (SendKeys (s2l "archy_session") (s2l "rm -rf /"))
        (fst (execute_and_wait_prelude (fun _ => true) (fun _ => Ok tt) (fun _ _ => None)
                rm_rf_request)).
Proof.
  split; [vm_compute; reflexivity|].
  apply (execute_and_wait_sends_unvalidated (fun _ => true) (fun _ => Ok tt)
           (fun _ _ => None) rm_rf_request (s2l "rm -rf /")); reflexivity.
Defined.

Lemma trim_start_split : forall r, exists p, r = p ++ trim_start r /\ no_ws_head (trim_start r).
Proof.
  induction r as [|c r IH]; [exists []; split; [reflexivity | exact I]|].
  simpl. destruct (is_ws c) eqn:E.
  - destruct IH as [p [Hp Hh]]. exists (c :: p). split; [simpl; f_equal; exact Hp | exact Hh].
  - exists []. split; [reflexivity | exact E].
Qed.

Lemma trim_start_fixed : forall r, no_ws_head r -> trim_start r = r.
Proof. intros [|c r] H; [reflexivity|]. simpl in *. rewrite H. reflexivity. Qed.

Lemma trim_idem : forall s, trim (trim s) = trim s.
Proof.
  intro s. unfold trim, trim_end.
  destruct (trim_start_split s) as [p [Hp Hh]].
  set (t := trim_start s) in *.
  destruct (trim_start_split (rev t)) as [q [Hq Hh']].
  set (u := trim_start (rev t)) in *.
  (* [t = rev u ++ rev q], so [rev u] starts like [t] *)
  assert (Ht : t = rev u ++ rev q) by (rewrite <- rev_app_distr, <- Hq, rev_involutive; reflexivity).
  assert (Hhu : no_ws_head (rev u)).
  { destruct (rev u) as [|c v] eqn:Eu; [exact I|]. rewrite Ht in Hh. exact Hh. }
  rewrite (trim_start_fixed (rev u) Hhu), rev_involutive, (trim_start_fixed u Hh').
  reflexivity.
Qed.

Lemma split_on_not_nil : forall c s, split_on c s <> [].
Proof.
  intros c [|d s]; simpl; [discriminate|].
  destruct (d =? c); [discriminate|]. destruct (split_on c s); discriminate.
Qed.

Lemma list_eqb_nil_false : forall x : list Z, list_eqb x [] = false -> x <> [].
Proof. intros x E H. subst. discriminate. Qed.

Lemma trim_nonempty_path : forall x p,
  (if list_eqb (trim x) [] then None else Some (trim x)) = Some p ->
  p <> [] /\ trim p = p.
Proof.
  intros x p H. destruct (list_eqb (trim x) []) eqn:E; [discriminate|].
  injection H as <-. split; [intro H; rewrite H in E; discriminate | apply trim_idem].
Qed.

Lemma prompt_path_trimmed : forall line p, prompt_path line = Some p -> p <> [] /\ trim p = p.
Proof.
  intros line p. unfold prompt_path, or_else.
  destruct (prompt_pattern1 line) as [p1|] eqn:E1.
  - intro H. injection H as <-. unfold prompt_pattern1 in E1.
    destruct (rfind_char line 58); [|discriminate].
    destruct (or_else _ _); [|discriminate].
    exact (trim_nonempty_path _ _ E1).
  - destruct (prompt_pattern2 line) as [p2|] eqn:E2.
    + intro H. injection H as <-. unfold prompt_pattern2 in E2.
      destruct (contains_char line 91 && contains_char line 93); [|discriminate].
      destruct (rfind_char line 91), (rfind_char line 93); try discriminate.
      destruct (_ <? _)%nat; [|discriminate].
      destruct (rfind_char _ 32); [|discriminate].
      exact (trim_nonempty_path _ _ E2).
    + unfold prompt_pattern3.
      destruct (or_else _ _); [|discriminate].
      destruct (rfind_char _ 32); [|discriminate].
      match goal with |- (if ?b then _ else _) = _ -> _ => destruct b eqn:E end;
        [|discriminate].
      intro H. injection H as <-. apply andb_prop in E as [E _].
      apply negb_true_iff in E.
      split; [exact (list_eqb_nil_false _ E) | apply trim_idem].
Qed.

(** A successful [extract_current_directory] returns a non-empty directory with no surrounding white space. *)
Theorem extract_current_directory_trimmed : forall data,
  success (extract_current_directory data) = true ->
  exists path, output (extract_current_directory data) = Some path
  /\ path <> [] /\ trim path = path.
Proof.
  intro data. unfold extract_current_directory.
  destruct (get_as as_str data (s2l "terminal_output")) as [t|]; [|discriminate].
  destruct (split_on 10 (trim t)) as [|l ls]; [discriminate|].
  match goal with |- context [fold_right ?f None ?xs] =>
    assert (Hf : forall p, fold_right f None xs = Some p -> p <> [] /\ trim p = p)
  end.
  { induction (rev _) as [|x xs IH]; [discriminate|].
    simpl. unfold or_else at 1. destruct (prompt_path x) as [q|] eqn:Eq.
    - intros p H. injection H as <-. exact (prompt_path_trimmed x q Eq).
    - exact IH. }
  destruct (fold_right _ None _) as [p|] eqn:E; [|discriminate].
  intros _. exists p. split; [reflexivity | exact (Hf p eq_refl)].
Qed.

(** [extract_current_directory] never reports "Empty terminal output": [str::split] always yields a first line. *)
Theorem extract_current_directory_never_empty_error : forall data,
  error (extract_current_directory data) <> Some (s2l "Empty terminal output").
Proof.
  intro data. unfold extract_current_directory.
  destruct (get_as as_str data (s2l "terminal_output")) as [t|];
    [|simpl; intro H; inversion H].
  pose proof (split_on_not_nil 10 (trim t)) as Hn.
  destruct (split_on 10 (trim t)) as [|l ls]; [contradiction|].
  destruct (fold_right _ None _); simpl; intro H; inversion H.
Qed.

Lemma extract_current_directory_trimmed_witness :
  success (extract_current_directory prompt_request) = true
  /\ exists path, output (extract_current_directory prompt_request) = Some path
     /\ path <> [] /\ trim path = path.
Proof.
  split; [vm_compute; reflexivity|].
  apply extract_current_directory_trimmed. vm_compute. reflexivity.
Defined.

Lemma read_loop_bounded : forall is_request max reads buffer sent b,
  0 <= max -> max + 8192 < 2 ^ 64 -> chunks_fit reads ->
  Z.of_nat (List.length buffer) <= max ->
  read_loop is_request max reads buffer (Z.of_nat (List.length buffer)) = (sent, Some b) ->
  Z.of_nat (List.length b) <= max + 8192 /\ sent <> [s2l "Request too large"].
Proof.
  intros is_request max reads. induction reads as [|r reads IH];
    intros buffer sent b Hm Hw Hfit Hb H.
  - simpl in H. injection H as <- <-. split; [lia | discriminate].
  - inversion Hfit as [|r' reads' Hr Hfit']; subst.
    destruct r as [chunk| | |]; simpl in H.
    + simpl in Hr.
      assert (Hwrap : wrap_u64 (Z.of_nat (List.length buffer) + Z.of_nat (List.length chunk))
                      = Z.of_nat (List.length (buffer ++ chunk))).
      { unfold wrap_u64. rewrite length_app, Nat2Z.inj_add. apply Z.mod_small.
        lia. }
      rewrite Hwrap in H.
      destruct (is_request (buffer ++ chunk)).
      * injection H as <- <-. rewrite length_app. split; [lia | discriminate].
      * destruct (max <? Z.of_nat (List.length (buffer ++ chunk))) eqn:E; [discriminate|].
        apply Z.ltb_ge in E. exact (IH _ _ _ Hm Hw Hfit' E H).
    + injection H as <- <-. split; [lia | discriminate].
    + destruct buffer; injection H as <- <-; split; (lia || discriminate).
    + discriminate.
Qed.

(** With reads of at most 8192 bytes, a request that [handle_client] goes on to dispatch is non-empty, at most [max_buffer_size + 8192] bytes long, and nothing was sent to the client before. *)
Theorem read_request_bounded : forall is_request max reads sent buffer,
  0 <= max -> max + 8192 < 2 ^ 64 -> chunks_fit reads ->
  read_request is_request max reads = (sent, Some buffer) ->
  buffer <> [] /\ Z.of_nat (List.length buffer) <= max + 8192 /\ sent = [].
Proof.
  intros is_request max reads sent buffer Hm Hw Hfit H. unfold read_request in H.
  destruct (read_loop is_request max reads [] 0) as [sent' r] eqn:E.
  destruct r as [[|c b]|]; try discriminate.
  injection H as <- <-.
  destruct (read_loop_bounded is_request max reads [] sent' (c :: b) Hm Hw Hfit) as [Hl _];
    [simpl; lia | exact E |].
  split; [discriminate | split; [exact Hl|]].
  (* a loop that goes on with a non-empty buffer sends nothing *)
  clear Hl. revert E. generalize (@nil Z) as buf. generalize 0 as tot.
  induction reads as [|r reads IH]; intros tot buf E; simpl in E.
  - injection E as <- _. reflexivity.
  - destruct r as [chunk| | |].
    + destruct (is_request (buf ++ chunk)); [injection E as <- _; reflexivity|].
      destruct (max <? _); [discriminate|].
      inversion Hfit; subst. exact (IH H2 _ _ E).
    + injection E as <- _. reflexivity.
    + destruct buf; injection E as <- Eb; [discriminate | reflexivity].
    + discriminate.
Qed.


Lemma read_request_bounded_witness :
  let reads := [ReadBytes (s2l "{}"); ReadEof] in
  (0 <= 8192 /\ 8192 + 8192 < 2 ^ 64 /\ chunks_fit reads
   /\ read_request (fun _ => false) 8192 reads = ([], Some (s2l "{}")))
  /\ (s2l "{}" <> [] /\ Z.of_nat (List.length (s2l "{}")) <= 8192 + 8192 /\ @nil (list Z) = []).
Proof.
  intros reads.
  assert (H : 0 <= 8192 /\ 8192 + 8192 < 2 ^ 64 /\ chunks_fit reads
   /\ read_request (fun _ => false) 8192 reads = ([], Some (s2l "{}"))).
  { split; [lia|]. split; [reflexivity|]. split; [|reflexivity].
    repeat constructor; simpl; lia. }
  split; [exact H|].
  destruct H as (H1 & H2 & H3 & H4).
  exact (read_request_bounded (fun _ => false) 8192 reads [] (s2l "{}") H1 H2 H3 H4).
Defined.


Lemma prompt_loop_origin : forall cp fuel i prev sc r,
  prompt_loop cp fuel i prev sc = r ->
  match r with
  | Ok out => out = prev \/ exists j, (i <= j < i + fuel)%nat /\ cp j = Ok out
  | Err e => exists j, (i <= j < i + fuel)%nat /\ cp j = Err e
  end.
Proof.
  intros cp fuel. induction fuel as [|fuel IH]; intros i prev sc r H; simpl in H.
  - subst r. left. reflexivity.
  - destruct (cp i) as [cur|e] eqn:Ec.
    + destruct (list_eqb cur prev) eqn:Eq.
      * destruct (6 <=? sc + 1).
        -- subst r. right. exists i. split; [lia | exact Ec].
        -- specialize (IH _ _ _ _ H). destruct r as [out|e].
           ++ destruct IH as [->|(j & Hj & Hc)]; [left; reflexivity|].
              right. exists j. split; [lia | exact Hc].
           ++ destruct IH as (j & Hj & Hc). exists j. split; [lia | exact Hc].
      * specialize (IH _ _ _ _ H). destruct r as [out|e].
        -- destruct IH as [->|(j & Hj & Hc)].
           ++ right. exists i. split; [lia | exact Ec].
           ++ right. exists j. split; [lia | exact Hc].
        -- destruct IH as (j & Hj & Hc). exists j. split; [lia | exact Hc].
    + subst r. exists i. split; [lia | exact Ec].
Qed.

(** [wait_for_prompt] runs only with a non-zero interval; its [Ok] result is the empty text or one of the captures it took, and its [Err] is the error of one of them. *)
Theorem wait_for_prompt_result_origin : forall cp max_wait_ms poll_interval_ms r,
  wait_for_prompt cp max_wait_ms poll_interval_ms = Some r ->
  poll_interval_ms <> 0 /\
  let n := Z.to_nat (max_wait_ms / poll_interval_ms) in
  match r with
  | Ok out => out = [] \/ exists j, (j < n)%nat /\ cp j = Ok out
  | Err e => exists j, (j < n)%nat /\ cp j = Err e
  end.
Proof.
  intros cp m p r H. unfold wait_for_prompt in H.
  destruct (p =? 0) eqn:Ep; [discriminate|]. apply Z.eqb_neq in Ep.
  injection H as H. split; [exact Ep|].
  apply prompt_loop_origin in H. simpl.
  destruct r as [out|e].
  - destruct H as [H|(j & Hj & Hc)]; [left; exact H|right; exists j; split; [lia|exact Hc]].
  - destruct H as (j & Hj & Hc). exists j. split; [lia|exact Hc].
Qed.

Lemma prompt_loop_constant : forall cp c fuel i sc,
  (forall j, cp j = Ok c) -> prompt_loop cp fuel i c sc = Ok c.
Proof.
  intros cp c fuel. induction fuel as [|fuel IH]; intros i sc Hc; simpl.
  - reflexivity.
  - rewrite Hc, list_eqb_refl. destruct (6 <=? sc + 1); [reflexivity|]. apply IH, Hc.
Qed.

(** When every capture of the pane returns the same text and at least one poll fits in [max_wait_ms], [wait_for_prompt] returns that text. *)
Theorem wait_for_prompt_constant_capture : forall cp c max_wait_ms poll_interval_ms,
  (forall j, cp j = Ok c) -> 0 < poll_interval_ms <= max_wait_ms ->
  wait_for_prompt cp max_wait_ms poll_interval_ms = Some (Ok c).
Proof.
  intros cp c m p Hc Hp. unfold wait_for_prompt.
  destruct (p =? 0) eqn:Ep; [apply Z.eqb_eq in Ep; lia|].
  assert (Hn : (1 <= Z.to_nat (m / p))%nat).
  { assert (1 <= m / p) by (apply Z.div_le_lower_bound; lia). lia. }
  destruct (Z.to_nat (m / p)) as [|n]; [lia|].
  f_equal. simpl. rewrite Hc.
  destruct (list_eqb c []) eqn:E.
  - apply list_eqb_spec in E. subst c.
    apply prompt_loop_constant, Hc.
  - apply prompt_loop_constant, Hc.
Qed.

Lemma prompt_loop_S : forall cp fuel i prev sc,
  prompt_loop cp (S fuel) i prev sc =
  match cp i with
  | Err e => Err e
  | Ok current_output =>
      if list_eqb current_output prev then
        if 6 <=? sc + 1 then Ok current_output
        else prompt_loop cp fuel (S i) prev (sc + 1)
      else prompt_loop cp fuel (S i) current_output 0
  end.
Proof. reflexivity. Qed.

Lemma prompt_loop_changing : forall cp f fuel i prev sc,
  (forall j, cp j = Ok (f j)) -> (forall j, f (S j) <> f j) -> f i <> prev ->
  prompt_loop cp (S fuel) i prev sc = Ok (f (i + fuel)%nat).
Proof.
  intros cp f fuel. induction fuel as [|fuel IH]; intros i prev sc Hc Hd Hi.
  - simpl. rewrite Hc. destruct (list_eqb (f i) prev) eqn:E.
    + apply list_eqb_spec in E. contradiction.
    + rewrite Nat.add_0_r. reflexivity.
  - rewrite prompt_loop_S, Hc. destruct (list_eqb (f i) prev) eqn:E.
    + apply list_eqb_spec in E. contradiction.
    + rewrite (IH (S i) (f i) 0 Hc Hd (Hd i)). f_equal. f_equal. lia.
Qed.

(** When no two successive captures are equal (and the first is not empty), the stability count never reaches 6 and [wait_for_prompt] returns the last capture after all [max_wait_ms / poll_interval_ms] polls. *)
Theorem wait_for_prompt_no_repeat_runs_out : forall cp f max_wait_ms poll_interval_ms,
  (forall j, cp j = Ok (f j)) -> f 0%nat <> [] -> (forall j, f (S j) <> f j) ->
  0 < poll_interval_ms <= max_wait_ms ->
  wait_for_prompt cp max_wait_ms poll_interval_ms
  = Some (Ok (f (Z.to_nat (max_wait_ms / poll_interval_ms) - 1)%nat)).
Proof.
  intros cp f m p Hc H0 Hd Hp. unfold wait_for_prompt.
  destruct (p =? 0) eqn:Ep; [apply Z.eqb_eq in Ep; lia|].
  assert (Hn : (1 <= Z.to_nat (m / p))%nat).
  { assert (1 <= m / p) by (apply Z.div_le_lower_bound; lia). lia. }
  destruct (Z.to_nat (m / p)) as [|n]; [lia|].
  rewrite (prompt_loop_changing cp f n 0 [] 0 Hc Hd H0). do 3 f_equal. lia.
Qed.

(** [ARCHY_POLL_INTERVAL=0] is accepted by [Config::from_env], and [wait_for_prompt] with that interval divides by zero. *)
Theorem wait_for_prompt_zero_interval_panics : forall cp env max_wait_ms,
  env (s2l "ARCHY_POLL_INTERVAL") = Some (s2l "0") ->
  poll_interval_ms (from_env env) = 0
  /\ wait_for_prompt cp max_wait_ms (poll_interval_ms (from_env env)) = None.
Proof.
  intros cp env m H. assert (E : poll_interval_ms (from_env env) = 0).
  { unfold from_env. cbn [poll_interval_ms]. rewrite H. reflexivity. }
  split; [exact E|]. rewrite E. reflexivity.
Qed.

(** With no ARCHY_ variable set, [Config::from_env] equals [Config::default]. *)
Theorem from_env_unset_is_default : forall env,
  (forall k, env k = None) -> from_env env = config_default.
Proof.
  intros env H. unfold from_env. rewrite !H. reflexivity.
Qed.

Lemma filter_In_nonempty : forall (l : list (list Z)) s,
  In s (filter (fun s => negb (list_eqb s [])) l) -> In s l /\ s <> [].
Proof.
  intros l s H. apply filter_In in H. destruct H as [H1 H2]. split; [exact H1|].
  intros ->. discriminate.
Qed.

(** Every session name returned by [list_sessions] is non-empty and trimmed. *)
Theorem list_sessions_trimmed_nonempty : forall output s,
  In s (list_sessions output) -> s <> [] /\ trim s = s.
Proof.
  intros output s H. unfold list_sessions in H.
  apply filter_In_nonempty in H. destruct H as [H Hs]. split; [exact Hs|].
  apply in_map_iff in H. destruct H as (l & <- & _). apply trim_idem.
Qed.

Lemma wait_for_prompt_result_origin_witness :
  wait_for_prompt counting_pane 2000 500 = Some (Ok [3])
  /\ (500 <> 0 /\ ([3] = [] \/ exists j, (j < 4)%nat /\ counting_pane j = Ok [3])).
Proof.
  assert (H : wait_for_prompt counting_pane 2000 500 = Some (Ok [3])) by (vm_compute; reflexivity).
  split; [exact H|]. exact (wait_for_prompt_result_origin counting_pane 2000 500 (Ok [3]) H).
Defined.

Lemma wait_for_prompt_constant_capture_witness :
  ((forall j, idle_pane j = Ok (s2l "user@host:~$ ")) /\ 0 < 500 <= 3000)
  /\ wait_for_prompt idle_pane 3000 500 = Some (Ok (s2l "user@host:~$ ")).
Proof.
  assert (Hc : forall j, idle_pane j = Ok (s2l "user@host:~$ ")) by reflexivity.
  assert (Hp : 0 < 500 <= 3000) by lia.
  split; [split; [exact Hc | exact Hp]|].
  exact (wait_for_prompt_constant_capture idle_pane _ 3000 500 Hc Hp).
Defined.

Lemma wait_for_prompt_no_repeat_runs_out_witness :
  ((forall j, counting_pane j = Ok [Z.of_nat j]) /\ [Z.of_nat 0] <> []
   /\ (forall j, [Z.of_nat (S j)] <> [Z.of_nat j]) /\ 0 < 500 <= 2000)
  /\ wait_for_prompt counting_pane 2000 500 = Some (Ok [Z.of_nat 3]).
Proof.
  assert (Hc : forall j, counting_pane j = Ok [Z.of_nat j]) by reflexivity.
  assert (H0 : [Z.of_nat 0] <> []) by discriminate.
  assert (Hd : forall j, [Z.of_nat (S j)] <> [Z.of_nat j]) by (intros j E; injection E; lia).
  assert (Hp : 0 < 500 <= 2000) by lia.
  split; [exact (conj Hc (conj H0 (conj Hd Hp)))|].
  exact (wait_for_prompt_no_repeat_runs_out counting_pane (fun j => [Z.of_nat j]) 2000 500 Hc H0 Hd Hp).
Defined.

Lemma wait_for_prompt_zero_interval_panics_witness :
  zero_poll_env (s2l "ARCHY_POLL_INTERVAL") = Some (s2l "0")
  /\ poll_interval_ms (from_env zero_poll_env) = 0
  /\ wait_for_prompt idle_pane 600000 (poll_interval_ms (from_env zero_poll_env)) = None.
Proof.
  assert (H : zero_poll_env (s2l "ARCHY_POLL_INTERVAL") = Some (s2l "0")) by reflexivity.
  split; [exact H|]. exact (wait_for_prompt_zero_interval_panics idle_pane _ 600000 H).
Defined.

Lemma from_env_unset_is_default_witness :
  (forall k : list Z, (fun _ => None) k = @None (list Z))
  /\ from_env (fun _ => None) = config_default.
Proof.
  assert (H : forall k : list Z, (fun _ => None) k = @None (list Z)) by reflexivity.
  split; [exact H|]. exact (from_env_unset_is_default _ H).
Defined.

Lemma list_sessions_trimmed_nonempty_witness :
  In (s2l "dev") (list_sessions (s2l "main
  dev 

"))
  /\ s2l "dev" <> [] /\ trim (s2l "dev") = s2l "dev".
Proof.
  assert (H : In (s2l "dev") (list_sessions (s2l "main
  dev 

"))) by (vm_compute; auto).
  split; [exact H|]. exact (list_sessions_trimmed_nonempty _ _ H).
Defined.

Lemma lor_shiftl_low : forall a b k, 0 <= k -> 0 <= b < 2 ^ k ->
  Z.lor (Z.shiftl a k) b = a * 2 ^ k + b.
Proof.
  intros a b k Hk Hb.
  assert (Hl : Z.land (Z.shiftl a k) b = 0).
  { apply Z.bits_inj'. intros n Hn. rewrite Z.land_spec, Z.bits_0.
    destruct (Z.lt_ge_cases n k) as [Hnk|Hnk].
    - rewrite Z.shiftl_spec_low by lia. reflexivity.
    - destruct (Z.eq_dec b 0) as [->|Hb0].
      + rewrite Z.testbit_0_l. apply andb_false_r.
      + assert (Z.log2 b < k) by (apply Z.log2_lt_pow2; lia).
        rewrite (Z.bits_above_log2 b n) by lia. apply andb_false_r. }
  rewrite <- Z.lxor_lor by exact Hl. rewrite <- Z.add_nocarry_lxor by exact Hl.
  rewrite Z.shiftl_mul_pow2 by lia. reflexivity.
Qed.

Lemma land_low : forall b k m, 0 <= k -> m = Z.ones k -> Z.land b m = b mod 2 ^ k.
Proof. intros b k m Hk ->. apply Z.land_ones, Hk. Qed.

Ltac low_bits :=
  repeat first
    [ rewrite (land_low _ 5 31) by (lia || reflexivity)
    | rewrite (land_low _ 6 63) by (lia || reflexivity)
    | rewrite (land_low _ 4 15) by (lia || reflexivity)
    | rewrite (land_low _ 3 7) by (lia || reflexivity) ].

Ltac pow_consts :=
  try change (2 ^ 3) with 8 in *; try change (2 ^ 4) with 16 in *;
  try change (2 ^ 5) with 32 in *; try change (2 ^ 6) with 64 in *;
  try change (2 ^ 12) with 4096 in *; try change (2 ^ 18) with 262144 in *.

Lemma mod_range : forall b k lo, 0 < k -> lo mod k = 0 -> lo <= b < lo + k -> b mod k = b - lo.
Proof.
  intros b k lo Hk Hlo Hb. symmetry. apply Z.mod_unique_pos with (q := lo / k); [lia|].
  pose proof (Z.div_mod lo k). lia.
Qed.

Ltac width_cases :=
  unfold utf8_width; pow_consts;
  repeat match goal with
         | |- context [?b mod ?k] =>
             first [ rewrite (mod_range b k 128) by (lia || reflexivity)
                   | rewrite (mod_range b k 192) by (lia || reflexivity)
                   | rewrite (mod_range b k 224) by (lia || reflexivity)
                   | rewrite (mod_range b k 240) by (lia || reflexivity) ]
         end;
  repeat match goal with
         | |- context [?x <? ?c] =>
             let W := fresh in
             destruct (x <? c) eqn:W; [apply Z.ltb_lt in W | apply Z.ltb_ge in W]
         end; lia.

Lemma utf8_len_cons : forall c s, utf8_len (c :: s) = utf8_width c + utf8_len s.
Proof. reflexivity. Qed.

Lemma inr_spec : forall lo b hi, inr_ lo b hi = true <-> lo <= b <= hi.
Proof. intros. unfold inr_. rewrite andb_true_iff, !Z.leb_le. tauto. Qed.

Lemma cont_spec : forall b, cont b = true <-> 128 <= b <= 191.
Proof. intros. unfold cont. rewrite andb_true_iff, !Z.leb_le. tauto. Qed.

Ltac some_inv H s :=
  cbv [option_map] in H;
  let Hs := fresh in
  pose proof (f_equal (fun o => match o with Some x => x | None => [] end) H) as Hs;
  cbv beta iota in Hs; clear H; subst s.

Theorem from_utf8_byte_length : forall bs s,
  from_utf8 bs = Some s -> utf8_len s = Z.of_nat (List.length bs).
Proof.
  intros bs. remember (List.length bs) as n eqn:Hn.
  revert bs Hn. induction n as [n IH] using lt_wf_ind. intros bs Hn s H.
  destruct bs as [|b0 r0]; unfold from_utf8 in H; cbv beta iota fix in H; fold from_utf8 in H.
  - injection H as <-. subst n. reflexivity.
  - cbn [List.length] in Hn.
    destruct (b0 <? 128) eqn:E0.
    { destruct (from_utf8 r0) as [t|] eqn:Et; [|discriminate].
      some_inv H s. rewrite utf8_len_cons.
      rewrite (IH (List.length r0) ltac:(lia) r0 eq_refl t Et).
      unfold utf8_width. rewrite E0. lia. }
    destruct (inr_ 194 b0 223) eqn:E1.
    { destruct r0 as [|b1 r1]; [discriminate|].
      destruct (cont b1) eqn:C1; [|discriminate].
      destruct (from_utf8 r1) as [t|] eqn:Et; [|discriminate].
      some_inv H s. rewrite utf8_len_cons.
      cbn [List.length] in Hn.
      rewrite (IH (List.length r1) ltac:(lia) r1 eq_refl t Et).
      apply inr_spec in E1. apply cont_spec in C1.
      low_bits. rewrite lor_shiftl_low by (try split; try apply Z.mod_pos_bound; lia).
      width_cases. }
    destruct (inr_ 224 b0 239) eqn:E2.
    { destruct r0 as [|b1 [|b2 r2]]; try discriminate.
      destruct ((if b0 =? 224 then inr_ 160 b1 191 else if b0 =? 237 then inr_ 128 b1 159
                 else cont b1) && cont b2) eqn:C; [|discriminate].
      destruct (from_utf8 r2) as [t|] eqn:Et; [|discriminate].
      some_inv H s. rewrite utf8_len_cons.
      cbn [List.length] in Hn.
      rewrite (IH (List.length r2) ltac:(lia) r2 eq_refl t Et).
      apply inr_spec in E2. apply andb_true_iff in C. destruct C as [C1 C2].
      apply cont_spec in C2.
      assert (H1 : 128 <= b1 <= 191 /\ (b0 = 224 -> 160 <= b1)).
      { destruct (b0 =? 224) eqn:B0.
        - apply Z.eqb_eq in B0. apply inr_spec in C1. lia.
        - apply Z.eqb_neq in B0. destruct (b0 =? 237).
          + apply inr_spec in C1. lia.
          + apply cont_spec in C1. lia. }
      low_bits.
      assert (0 <= b1 mod 2 ^ 6 < 2 ^ 6) by (apply Z.mod_pos_bound; lia).
      assert (0 <= b2 mod 2 ^ 6 < 2 ^ 6) by (apply Z.mod_pos_bound; lia).
      rewrite (lor_shiftl_low (b1 mod 2 ^ 6)) by lia.
      rewrite lor_shiftl_low by (try split; lia).
      width_cases. }
    destruct (inr_ 240 b0 244) eqn:E3; [|discriminate].
    destruct r0 as [|b1 [|b2 [|b3 r3]]]; try discriminate.
    destruct ((if b0 =? 240 then inr_ 144 b1 191 else if b0 =? 244 then inr_ 128 b1 143
               else cont b1) && cont b2 && cont b3) eqn:C; [|discriminate].
    destruct (from_utf8 r3) as [t|] eqn:Et; [|discriminate].
    some_inv H s. rewrite utf8_len_cons.
    cbn [List.length] in Hn.
    rewrite (IH (List.length r3) ltac:(lia) r3 eq_refl t Et).
    apply inr_spec in E3. apply andb_true_iff in C. destruct C as [C C3].
    apply andb_true_iff in C. destruct C as [C1 C2].
    apply cont_spec in C2. apply cont_spec in C3.
    assert (H1 : 128 <= b1 <= 191 /\ (b0 = 240 -> 144 <= b1)).
    { destruct (b0 =? 240) eqn:B0.
      - apply Z.eqb_eq in B0. apply inr_spec in C1. lia.
      - apply Z.eqb_neq in B0. destruct (b0 =? 244).
        + apply inr_spec in C1. lia.
        + apply cont_spec in C1. lia. }
    low_bits.
    assert (0 <= b1 mod 2 ^ 6 < 2 ^ 6) by (apply Z.mod_pos_bound; lia).
    assert (0 <= b2 mod 2 ^ 6 < 2 ^ 6) by (apply Z.mod_pos_bound; lia).
    assert (0 <= b3 mod 2 ^ 6 < 2 ^ 6) by (apply Z.mod_pos_bound; lia).
    rewrite (lor_shiftl_low (b2 mod 2 ^ 6)) by lia.
    rewrite (lor_shiftl_low (b1 mod 2 ^ 6)) by (try split; lia).
    rewrite lor_shiftl_low by (try split; lia).
    width_cases.
Qed.

(** For a capture that decodes as UTF-8, the [byte_count] of [parse_intelligently] is the number of bytes captured. *)
Theorem parse_intelligently_counts_captured_bytes : forall tl isal isd js ho bs s command,
  from_utf8 bs = Some s ->
  byte_count (metadata (parse_intelligently tl isal isd js ho s command))
  = Z.of_nat (List.length bs).
Proof.
  intros tl isal isd js ho bs s command H. unfold parse_intelligently.
  rewrite extractor_keeps_metadata. cbn [byte_count].
  exact (from_utf8_byte_length bs s H).
Qed.

(** *** parse_nmap *)
Lemma nmap_fold_services : forall tl ls hosts ports services,
  (List.length services <= List.length ports)%nat ->
  let '(_, ports', services') := fold_left (nmap_line tl) ls (hosts, ports, services) in
  (List.length services' <= List.length ports')%nat.
Proof.
  intros tl ls. induction ls as [|line ls IH]; intros hosts ports services H; [exact H|].
  cbn [fold_left]. unfold nmap_line at 2.
  destruct (contains line (s2l "/tcp") && contains (tl line) (s2l "open")).
  - destruct (split_whitespace line) as [|port_part rest].
    + apply IH, H.
    + apply IH.
      destruct (2 <? List.length (port_part :: rest))%nat;
        rewrite ?length_app; cbn [List.length]; lia.
  - apply IH, H.
Qed.

(** [parse_nmap] never lists more services than open ports: a service is recorded only with a port. *)
Theorem nmap_services_never_outnumber_ports : forall tl raw,
  let '(_, open_ports, services) := nmap_scan tl raw in
  (List.length services <= List.length open_ports)%nat.
Proof.
  intros tl raw. unfold nmap_scan. apply nmap_fold_services. cbn. lia.
Qed.

(** *** parse_ip_addr *)
Lemma span_all : forall p l a b, span p l = (a, b) -> Forall (fun c => p c = true) a.
Proof.
  intros p l. induction l as [|c l IH]; intros a b H; cbn [span] in H.
  - injection H as <- _. constructor.
  - destruct (p c) eqn:Ep.
    + destruct (span p l) as [a' b'] eqn:E. injection H as <- _.
      constructor; [exact Ep | exact (IH _ _ eq_refl)].
    + injection H as <- _. constructor.
Qed.

Lemma last_colon_prefix_rev_sub : forall rw p,
  last_colon_prefix_rev rw = Some p -> p <> [] /\ incl p rw.
Proof.
  induction rw as [|c rw IH]; intros p H; cbn [last_colon_prefix_rev] in H; [discriminate|].
  destruct ((c =? 58) && negb (list_eqb rw [])) eqn:E.
  - injection H as <-. apply andb_true_iff in E. destruct E as [_ E].
    apply negb_true_iff in E. split.
    + intros Hr. apply (f_equal (@rev Z)) in Hr. rewrite rev_involutive in Hr.
      subst rw. discriminate.
    + intros x Hx. right. apply in_rev. exact Hx.
  - destruct (IH p H) as [Hp Hi]. split; [exact Hp|]. intros x Hx. right. exact (Hi x Hx).
Qed.

Lemma re_interface_name : forall isd line name,
  re_interface isd line = Some name -> name <> [] /\ Forall (fun c => is_ws c = false) name.
Proof.
  intros isd line name H. unfold re_interface in H.
  destruct (span isd line) as [ds r1]. destruct ds as [|d ds]; [discriminate|].
  destruct r1 as [|c r2]; [discriminate|].
  destruct (c =? 58) eqn:Ec.
  - apply Z.eqb_eq in Ec. subst c.
    destruct (span is_ws r2) as [ws r3]. destruct ws as [|w0 ws]; [discriminate|].
    destruct (span (fun c => negb (is_ws c)) r3) as [w rest] eqn:Ew.
    apply last_colon_prefix_rev_sub in H. destruct H as [Hne Hin].
    split; [exact Hne|]. apply Forall_forall. intros x Hx.
    apply Hin, in_rev in Hx. apply span_all in Ew. rewrite Forall_forall in Ew.
    apply negb_true_iff. exact (Ew x Hx).
  - (* the match on [58 :: r2] fails for any other character *)
    exfalso. revert H. destruct c as [|pc|nc]; try discriminate.
    repeat (destruct pc as [pc|pc|]; try discriminate); cbv in Ec; discriminate.
Qed.

(** Every interface name that [parse_ip_addr] records is non-empty and contains no white space. *)
Theorem ip_interfaces_are_names : forall isd raw,
  let '(interfaces, _) := fold_left (ip_line isd) (lines raw) ([], []) in
  Forall (fun name => name <> [] /\ Forall (fun c => is_ws c = false) name) interfaces.
Proof.
  intros isd raw.
  assert (G : forall ls ifs ips,
    Forall (fun name => name <> [] /\ Forall (fun c => is_ws c = false) name) ifs ->
    let '(interfaces, _) := fold_left (ip_line isd) ls (ifs, ips) in
    Forall (fun name => name <> [] /\ Forall (fun c => is_ws c = false) name) interfaces).
  { induction ls as [|line ls IH]; intros ifs ips H; [exact H|].
    cbn [fold_left]. unfold ip_line at 2. apply IH.
    destruct (re_interface isd line) as [i|] eqn:E; [|exact H].
    apply Forall_app. split; [exact H|]. constructor; [|constructor].
    exact (re_interface_name isd line i E). }
  apply G. constructor.
Qed.

(** *** parse_journalctl *)
Lemma journal_fold_nodup : forall tl isal ls errors warnings failed,
  NoDup failed ->
  let '(_, _, failed') := fold_left (journal_line tl isal) ls (errors, warnings, failed) in
  NoDup failed'.
Proof.
  intros tl isal ls. induction ls as [|line ls IH]; intros errors warnings failed H; [exact H|].
  cbn [fold_left]. unfold journal_line at 2.
  destruct (contains (tl line) (s2l "error") || contains (tl line) (s2l "failed")
            || contains (tl line) (s2l "fail")).
  - apply IH.
    destruct (contains (tl line) (s2l ".service")); [|exact H].
    destruct (span (fun c => negb (isal c)) line) as [pre rest].
    destruct rest as [|r0 rest']; [exact H|].
    destruct (find_sub (r0 :: rest') (s2l ".service")) as [e|]; [|exact H].
    destruct (existsb (list_eqb (firstn e (r0 :: rest'))) failed) eqn:E; [exact H|].
    apply NoDup_app; [exact H | constructor; [intros []|constructor] |].
    intros x Hx [Hy|[]]. subst x.
    assert (Ex : existsb (list_eqb (firstn e (r0 :: rest'))) failed = true).
    { apply existsb_exists. exists (firstn e (r0 :: rest')). split; [exact Hx|].
      apply list_eqb_refl. }
    congruence.
  - destruct (contains (tl line) (s2l "warning") || contains (tl line) (s2l "warn"));
      apply IH, H.
Qed.

(** The failed services of [parse_journalctl] are distinct, in the set and in its iteration order. *)
Theorem journal_failed_services_distinct : forall tl isal ho raw,
  (forall l, Permutation l (ho l)) ->
  let '(_, _, failed_set) := fold_left (journal_line tl isal) (lines raw) ([], [], []) in
  NoDup failed_set /\ NoDup (ho failed_set).
Proof.
  intros tl isal ho raw Hp.
  pose proof (journal_fold_nodup tl isal (lines raw) [] [] [] (NoDup_nil _)) as H.
  destruct (fold_left (journal_line tl isal) (lines raw) ([], [], [])) as [[e w] f].
  split; [exact H|]. exact (Permutation_NoDup (Hp f) H).
Qed.

(** *** parse_disk_usage *)
Lemma disk_finding_severe : forall fsname usage,
  (List.length (disk_finding fsname usage) <= 1)%nat
  /\ Forall (fun f => importance f = Critical \/ importance f = High) (disk_finding fsname usage).
Proof.
  intros fsname usage. unfold disk_finding.
  destruct (90 <? usage); [|destruct (80 <? usage)];
    (split; [cbn; lia | repeat apply Forall_cons; try apply Forall_nil; cbn; auto]).
Qed.

Lemma disk_line_severe : forall line fs fnd, disk_line line = Some (fs, fnd) ->
  (List.length fnd <= 1)%nat
  /\ Forall (fun f => importance f = Critical \/ importance f = High) fnd.
Proof.
  intros line fs fnd H. unfold disk_line in H.
  destruct (contains_char line 37); [|discriminate].
  destruct (5 <=? List.length (split_whitespace line))%nat; [|discriminate].
  destruct (find _ _) as [u|]; [|discriminate].
  destruct (parse_u8 _) as [usage|]; [|discriminate].
  injection H as _ <-. apply disk_finding_severe.
Qed.

(** [parse_disk_usage] produces at most one finding per filesystem, and each finding is Critical or High. *)
Theorem disk_findings_per_filesystem : forall raw,
  let '(filesystems, findings) := fold_left disk_step (lines raw) ([], []) in
  (List.length findings <= List.length filesystems)%nat
  /\ Forall (fun f => importance f = Critical \/ importance f = High) findings.
Proof.
  intros raw.
  assert (G : forall ls fss fnds,
    (List.length fnds <= List.length fss)%nat ->
    Forall (fun f => importance f = Critical \/ importance f = High) fnds ->
    let '(filesystems, findings) := fold_left disk_step ls (fss, fnds) in
    (List.length findings <= List.length filesystems)%nat
    /\ Forall (fun f => importance f = Critical \/ importance f = High) findings).
  { induction ls as [|line ls IH]; intros fss fnds Hl Hf; [split; assumption|].
    cbn [fold_left]. unfold disk_step at 2.
    destruct (disk_line line) as [[fs fnd]|] eqn:E; [|apply IH; assumption].
    destruct (disk_line_severe line fs fnd E) as [H1 H2].
    apply IH.
    - rewrite !length_app. cbn [List.length]. lia.
    - apply Forall_app. split; assumption. }
  apply G; [cbn; lia | constructor].
Qed.

Lemma strip_colors_plain_text_witness :
  ~ In 27 (s2l "total 0") /\ strip_colors (s2l "total 0") = s2l "total 0".
Proof.
  assert (H : ~ In 27 (s2l "total 0")) by (simpl; intuition discriminate).
  split; [exact H | exact (strip_colors_plain_text _ H)].
Defined.

Lemma pad_string_width_witness :
  0 <= 8 /\ utf8_len (pad_string (s2l "ok") 8) = Z.max (utf8_len (s2l "ok")) 8
  /\ exists pad, pad_string (s2l "ok") 8 = s2l "ok" ++ pad /\ Forall (eq 32) pad.
Proof.
  assert (H : 0 <= 8) by lia. split; [exact H | exact (pad_string_width _ _ H)].
Defined.


Lemma table_cell_width_witness :
  (ascii_text (s2l "archy_session") /\ 3 <= 10)
  /\ exists cell, option_map (fun t => pad_string t 10) (truncate_string (s2l "archy_session") 10)
                  = Some cell /\ utf8_len cell = 10.
Proof.
  assert (Hs : ascii_text (s2l "archy_session")) by reflexivity.
  assert (Hw : 3 <= 10) by lia.
  split; [exact (conj Hs Hw) | exact (table_cell_width _ _ Hs Hw)].
Defined.

Lemma escape_pgrep_pattern_injective_witness :
  escape_pgrep_pattern (s2l "a.b") = escape_pgrep_pattern (s2l "a.b") /\ s2l "a.b" = s2l "a.b".
Proof.
  assert (H : escape_pgrep_pattern (s2l "a.b") = escape_pgrep_pattern (s2l "a.b")) by reflexivity.
  split; [exact H | exact (escape_pgrep_pattern_injective _ _ H)].
Defined.

Lemma validate_command_accepts_witness :
  validate_command lower_ascii (s2l "ls -la") = Ok tt
  /\ (~ In 0 (s2l "ls -la") /\ utf8_len (s2l "ls -la") <= 8192
      /\ forall pattern, In pattern dangerous_patterns ->
         contains (lower_ascii (s2l "ls -la")) pattern = false).
Proof.
  assert (H : validate_command lower_ascii (s2l "ls -la") = Ok tt) by (vm_compute; reflexivity).
  split; [exact H | exact (validate_command_accepts _ _ H)].
Defined.

Lemma parse_intelligently_counts_captured_bytes_witness :
  from_utf8 [104; 195; 169] = Some [104; 233]
  /\ byte_count (metadata (parse_intelligently lower_ascii ascii_alpha (fun _ => false)
                             (fun _ => None) (fun l => l) [104; 233] (s2l "echo")))
     = Z.of_nat (List.length [104; 195; 169]).
Proof.
  assert (H : from_utf8 [104; 195; 169] = Some [104; 233]) by (vm_compute; reflexivity).
  split; [exact H|].
  exact (parse_intelligently_counts_captured_bytes lower_ascii ascii_alpha (fun _ => false)
           (fun _ => None) (fun l => l) _ _ (s2l "echo") H).
Defined.

Lemma journal_failed_services_distinct_witness :
  (forall l : list (list Z), Permutation l l)
  /\ let '(_, _, failed_set) :=
       fold_left (journal_line lower_ascii ascii_alpha)
         (lines (s2l "nginx.service failed
nginx.service failed")) ([], [], []) in
     NoDup failed_set /\ NoDup failed_set.
Proof.
  assert (Hp : forall l : list (list Z), Permutation l l) by (intro l; apply Permutation_refl).
  split; [exact Hp|].
  exact (journal_failed_services_distinct lower_ascii ascii_alpha (fun l => l)
           (s2l "nginx.service failed
nginx.service failed") Hp).
Defined.
